(** * get_module_io: the port-interface extractor, embedded and verified

    The script reads a Verilog module description into one string, finds the
    module name and the input and output declarations with three regular
    expressions, merges the declarations into two dictionaries keyed by
    signal name and writes them as rows of a .csv file.

    The embedding follows the script from the point where the file has been
    read in (the definition of the patterns) to its final [exit()].

    Text is a [string] of 8-bit characters read as the code points 0..255;
    the classes [\s] and [\w] of the [re] module are tabulated on that range. *)

From Stdlib Require Import Bool Arith Lia List String Ascii.
Import ListNotations.

Local Open Scope string_scope.
Local Open Scope list_scope.
Local Open Scope nat_scope.

(** ** Characters and character classes *)

Definition code (c : ascii) : nat := nat_of_ascii c.

Definition between (lo hi n : nat) : bool := (lo <=? n) && (n <=? hi).

(** [\s] of a str pattern: the white space of [str.isspace]. *)
Definition is_space (c : ascii) : bool :=
  let n := code c in
  between 9 13 n || between 28 32 n || (n =? 133) || (n =? 160).

(** [\w] of a str pattern: alphanumeric characters and the underscore. *)
Definition is_word (c : ascii) : bool :=
  let n := code c in
  between 48 57 n || between 65 90 n || (n =? 95) || between 97 122 n
  || (n =? 170) || between 178 179 n || (n =? 181) || between 185 186 n
  || between 188 190 n || between 192 214 n || between 216 246 n
  || between 248 255 n.

(** The items of a bracketed class [[...]]. *)
Inductive citem : Type :=
| Single (c : ascii)
| Range (lo hi : ascii)
| Space.

Definition cset := list citem.

Definition in_item (c : ascii) (i : citem) : bool :=
  match i with
  | Single d => Ascii.eqb c d
  | Range lo hi => between (code lo) (code hi) (code c)
  | Space => is_space c
  end.

Definition in_cset (c : ascii) (cs : cset) : bool := existsb (in_item c) cs.

(** ** Regular expressions

    The constructs the four patterns of the script use.  Repetition is only
    ever applied to a class ([\s*], [[...]+]) or, twice at most, to a
    bracket expression ([{0,2}]). *)

Inductive regex : Type :=
| Lit (s : string)              (* a run of literal characters *)
| Chr (cs : cset)               (* one character of a class *)
| Star (cs : cset)              (* greedy [cs*] *)
| Seq (a b : regex)
| Alt (a b : regex)             (* [a|b], [a] tried first *)
| Opt (a : regex)               (* greedy [a?] *)
| Group (n : nat) (a : regex)   (* capturing group number [n] *)
| NotBehind (cs : cset)         (* [(?<!c)] for a class of single characters *)
| WordB.                        (* [\b] *)

Infix ">>" := Seq (at level 61, right associativity).

(** [cs+] and [a{0,2}]. *)
Definition Plus (cs : cset) : regex := Chr cs >> Star cs.
Definition Rep02 (a : regex) : regex := Opt (a >> Opt a).

(** ** Matching

    A matcher state is the character before the current position, the text
    from the current position on and the groups captured so far. *)

Record mstate : Type := MState {
  prev : option ascii;
  rest : string;
  caps : list (nat * string)
}.

Fixpoint assoc (n : nat) (l : list (nat * string)) : option string :=
  match l with
  | [] => None
  | (k, v) :: l' => if k =? n then Some v else assoc n l'
  end.

(** A group that took no part in the match reads as the empty string, as in
    the tuples [findall] returns. *)
Definition group (n : nat) (l : list (nat * string)) : string :=
  match assoc n l with Some v => v | None => "" end.

Fixpoint take (n : nat) (s : string) : string :=
  match n, s with
  | S k, String c s' => String c (take k s')
  | _, _ => ""
  end.

Fixpoint last_char (p : option ascii) (s : string) : option ascii :=
  match s with
  | EmptyString => p
  | String c s' => last_char (Some c) s'
  end.

(** [strip l s]: [s] without its prefix [l], when it starts with [l]. *)
Fixpoint strip (l s : string) : option string :=
  match l, s with
  | EmptyString, _ => Some s
  | String a l', String b s' => if Ascii.eqb a b then strip l' s' else None
  | String _ _, EmptyString => None
  end.

Definition next_char (s : string) : option ascii :=
  match s with
  | EmptyString => None
  | String c _ => Some c
  end.

Definition word_at (o : option ascii) : bool :=
  match o with
  | Some c => is_word c
  | None => false
  end.

(** The text consumed between a state and a later one. *)
Definition consumed (st st' : mstate) : string :=
  take (String.length (rest st) - String.length (rest st')) (rest st).

Definition set_group (n : nat) (st st' : mstate) : mstate :=
  MState (prev st') (rest st') ((n, consumed st st') :: caps st').

(** The states after [cs*], the longest run first. *)
Fixpoint star (cs : cset) (p : option ascii) (s : string)
    (g : list (nat * string)) : list mstate :=
  match s with
  | String c s' =>
      if in_cset c cs then star cs (Some c) s' g ++ [MState p s g]
      else [MState p s g]
  | EmptyString => [MState p s g]
  end.

(** [run_re r st]: every way [r] matches at [st], in the order a
    backtracking matcher tries them; the head is the match it returns. *)
Fixpoint run_re (r : regex) (st : mstate) : list mstate :=
  match r with
  | Lit l =>
      match strip l (rest st) with
      | Some s' => [MState (last_char (prev st) l) s' (caps st)]
      | None => []
      end
  | Chr cs =>
      match rest st with
      | String c s' =>
          if in_cset c cs then [MState (Some c) s' (caps st)] else []
      | EmptyString => []
      end
  | Star cs => star cs (prev st) (rest st) (caps st)
  | Seq a b => flat_map (run_re b) (run_re a st)
  | Alt a b => run_re a st ++ run_re b st
  | Opt a => run_re a st ++ [st]
  | Group n a => map (set_group n st) (run_re a st)
  | NotBehind cs =>
      match prev st with
      | Some c => if in_cset c cs then [] else [st]
      | None => [st]
      end
  | WordB =>
      if xorb (word_at (prev st)) (word_at (next_char (rest st)))
      then [st] else []
  end.

(** ** Scanning: [finditer] and [findall] *)

Record match_obj : Type := Match {
  m_start : nat;
  m_end : nat;
  m_groups : list (nat * string)
}.

(** One attempt at the current position. *)
Definition match_here (r : regex) (p : option ascii) (s : string)
    : option mstate :=
  hd_error (run_re r (MState p s [])).

(** The leftmost, non-overlapping matches.  [skip] counts the characters
    still covered by the last match; a match of no character is followed by
    an attempt one character on (no pattern of the script matches the empty
    string: [matches_not_empty] below). *)
Fixpoint scan (r : regex) (p : option ascii) (s : string) (pos skip : nat)
    : list match_obj :=
  match skip with
  | S k =>
      match s with
      | String c s' => scan r (Some c) s' (S pos) k
      | EmptyString => []
      end
  | O =>
      match match_here r p s with
      | Some st' =>
          let len := String.length s - String.length (rest st') in
          Match pos (pos + len) (caps st') ::
          match s with
          | String c s' => scan r (Some c) s' (S pos) (len - 1)
          | EmptyString => []
          end
      | None =>
          match s with
          | String c s' => scan r (Some c) s' (S pos) 0
          | EmptyString => []
          end
      end
  end.

Definition finditer (r : regex) (text : string) : list match_obj :=
  scan r None text 0 0.

(** [findall] for a pattern with one group: the list of that group. *)
Definition findall1 (r : regex) (text : string) : list string :=
  map (fun m => group 1 (m_groups m)) (finditer r text).

(** [findall] for a pattern with five groups: the list of 5-tuples. *)
Definition tuple5 : Type := (string * string * string * string * string)%type.

Definition groups5 (m : match_obj) : tuple5 :=
  let g := m_groups m in (group 1 g, group 2 g, group 3 g, group 4 g, group 5 g).

Definition findall5 (r : regex) (text : string) : list tuple5 :=
  map groups5 (finditer r text).

(** ** The patterns of the script *)

Definition letters_ : cset := [Range "a" "z"; Range "A" "Z"; Single "_"].

(** [(?: |/|[a-zA-Z\_])], the body of the lookbehind of every pattern. *)
Definition behind : cset := Single " " :: Single "/" :: letters_.

(** [[a-zA-Z\_0-9]] *)
Definition ident : cset := letters_ ++ [Range "0" "9"].

(** [[\n\s]] *)
Definition nl_space : cset := [Single "010"; Space].

(** [[`a-zA-Z0-9\_\-\+\:\*/ ]] *)
Definition dim_chars : cset :=
  [Single "`"; Range "a" "z"; Range "A" "Z"; Range "0" "9"; Single "_";
   Single "-"; Single "+"; Single ":"; Single "*"; Single "/"; Single " "].

(** [[a-zA-Z\_0-9\$\{\}]] *)
Definition port_name : cset :=
  letters_ ++ [Range "0" "9"; Single "$"; Single "{"; Single "}"].

(** [\[[`a-zA-Z0-9\_\-\+\:\*/ ]+\]] *)
Definition bracket : regex := Lit "[" >> Plus dim_chars >> Lit "]".

(** [\[...\]|\$\$\{[a-zA-Z\_]+\}|\$\[[a-zA-Z\_]+\]] *)
Definition dimension : regex :=
  Alt bracket
      (Alt (Lit "$${" >> Plus letters_ >> Lit "}")
           (Lit "$[" >> Plus letters_ >> Lit "]")).

Definition moduleNamePattern : regex :=
  NotBehind behind >> Lit "module" >> Plus [Space] >>
  Opt (Lit "$[PREFIX]") >> Group 1 (Plus ident) >>
  Star nl_space >> Opt (Lit "#") >> Star nl_space >> Lit "(".

Definition moduleParamsPattern : regex :=
  NotBehind behind >> Lit "parameter" >> Star [Space] >>
  Rep02 (bracket >> Star [Space]) >> Star [Space] >>
  Group 1 (Plus ident) >> Star [Space] >> Lit "=".

Definition portPattern (keyword : string) : regex :=
  NotBehind behind >> Group 1 (Lit keyword) >> Plus [Space] >>
  Opt (Group 2 (Alt (Lit "wire" >> WordB) (Lit "reg" >> WordB))) >>
  Star [Space] >> Opt (Group 3 dimension) >>
  Star [Space] >> Opt (Group 4 dimension) >>
  Star [Space] >> Group 5 (Plus port_name) >>
  Star [Space] >> Opt (Lit ",").

Definition moduleInputsPattern : regex := portPattern "input".
Definition moduleOutputsPattern : regex := portPattern "output".

(** ** The script's world: console, report file and exceptions *)

(** The messages the script defines, by the names it gives them. *)
Inductive message : Type :=
| moduleNameNotIdentified
| noParamsFound
| noInputsIdentified
| noOutputsIdentified
| jobDoneMsg (moduleName fileName : string)
| goodbyeMsg (fileName : string).

Definition row : Type := list string.

(** What a run leaves behind: the lines printed, and the file opened for
    writing (its name and the rows written so far), if any. *)
Record world : Type := World {
  printed : list message;
  report : option (string * list row)
}.

Inductive exn : Type :=
| SystemExit                 (* [exit()] *)
| NameError (name : string)  (* a variable read before any assignment *)
| IndexError                 (* a list index out of range *)
| OSError.                   (* an [open] the file system refuses *)

Inductive res (A : Type) : Type :=
| Ok (a : A)
| Raise (e : exn).

Arguments Ok {A} a.
Arguments Raise {A} e.

Definition M (A : Type) : Type := world -> world * res A.

Definition ret {A} (a : A) : M A := fun w => (w, Ok a).

Definition bind {A B} (c : M A) (k : A -> M B) : M B :=
  fun w =>
    match c w with
    | (w', Ok a) => k a w'
    | (w', Raise e) => (w', Raise e)
    end.

Notation "x <- c ;; k" := (bind c (fun x => k))
  (at level 100, c at next level, right associativity).
Notation "c ;; k" := (bind c (fun _ => k))
  (at level 100, right associativity).

Definition raise {A} (e : exn) : M A := fun w => (w, Raise e).

Definition exit {A} : M A := raise SystemExit.

Definition print (m : message) : M unit :=
  fun w => (World (printed w ++ [m]) (report w), Ok tt).

(** [open(name, 'w')] where the file system grants it: the file is created
    empty.  [open_w_on] below is the call on a file system that may refuse
    it. *)
Definition open_w (name : string) : M unit :=
  fun w => (World (printed w) (Some (name, [])), Ok tt).

(** [writer.writerow(r)] on the file opened last. *)
Definition writerow (r : row) : M unit :=
  fun w =>
    match report w with
    | Some (name, rows) =>
        (World (printed w) (Some (name, rows ++ [r])), Ok tt)
    | None => (w, Ok tt)
    end.

(** Reading a variable that is assigned on one branch only. *)
Definition var {A} (name : string) (v : option A) : M A :=
  match v with
  | Some a => ret a
  | None => raise (NameError name)
  end.

(** [l[i]] *)
Definition index {A} (l : list A) (i : nat) : M A :=
  match nth_error l i with
  | Some a => ret a
  | None => raise IndexError
  end.

(** [for i in range(0, n)] and [for item in l], threading the variables the
    body assigns. *)
Fixpoint for_each {A S} (l : list A) (body : A -> S -> M S) (s : S) : M S :=
  match l with
  | [] => ret s
  | a :: l' => s' <- body a s ;; for_each l' body s'
  end.

Definition range (lo n : nat) : list nat := seq lo (n - lo).

(** ** Dictionaries, in insertion order *)

Record port_info : Type := PortInfo {
  signalType : string;
  signalDimension : string
}.

Definition dict : Type := list (string * port_info).

(** [d[k] = v]: a new key goes to the end, a known key keeps its place. *)
Fixpoint dict_set (k : string) (v : port_info) (d : dict) : dict :=
  match d with
  | [] => [(k, v)]
  | (k', v') :: d' =>
      if String.eqb k' k then (k', v) :: d'
      else (k', v') :: dict_set k v d'
  end.

Fixpoint dict_get (k : string) (d : dict) : option port_info :=
  match d with
  | [] => None
  | (k', v) :: d' => if String.eqb k' k then Some v else dict_get k d'
  end.

Definition keys (d : dict) : list string := map fst d.

(** ** The script *)

(** The body of the two loops that form the dictionaries. *)
Definition add_port (moduleIO : option (list tuple5)) (listName : string)
    (i : nat) (d : dict) : M dict :=
  l <- var listName moduleIO ;;
  t <- index l i ;;
  let '(_, signalType, dimA, dimB, signalName) := t in
  let signalDimension := (dimA ++ dimB)%string in
  ret (dict_set signalName (PortInfo signalType signalDimension) d).

Definition header : row :=
  ["Signal Name"; "Input/Output"; "Signal Type"; "Dimension"].

Definition write_port (label : string) (item : string * port_info)
    (_ : unit) : M unit :=
  let (key, value) := item in
  writerow [key; label; signalType value; signalDimension value].

(** ==== Extract the Module Name first ==== *)
Definition extract_module_name (moduleContents : string) : M string :=
  let matches := findall1 moduleNamePattern moduleContents in
  if negb (List.length matches =? 1)
  then print moduleNameNotIdentified ;; exit
  else index matches 0.

(** ==== Extract the Module Inputs ==== and ==== Extract the Module
    Outputs ====: the list and its length are assigned only when there is a
    match. *)
Definition extract_io (pattern : regex) (noneIdentified : message)
    (moduleContents : string) : M (option (list tuple5) * option nat) :=
  let matches := findall5 pattern moduleContents in
  if List.length matches =? 0
  then print noneIdentified ;; ret (None, None)
  else ret (Some matches, Some (List.length matches)).

(** One of the two loops of ==== Form the List of Inputs and Outputs ====. *)
Definition form_dictionary (numName : string) (numIO : option nat)
    (listName : string) (moduleIO : option (list tuple5)) : M dict :=
  n <- var numName numIO ;;
  for_each (range 0 n) (add_port moduleIO listName) [].

(** The script up to the two dictionaries. *)
Definition extract (moduleContents : string) : M (string * dict * dict) :=
  moduleName <- extract_module_name moduleContents ;;
  ins <- extract_io moduleInputsPattern noInputsIdentified moduleContents ;;
  let '(moduleInputs, numInputs) := ins in
  outs <- extract_io moduleOutputsPattern noOutputsIdentified moduleContents ;;
  let '(moduleOutputs, numOutputs) := outs in
  inputDictionary <-
    form_dictionary "numInputs" numInputs "moduleInputs" moduleInputs ;;
  outputDictionary <-
    form_dictionary "numOutputs" numOutputs "moduleOutputs" moduleOutputs ;;
  ret (moduleName, inputDictionary, outputDictionary).

(** ==== Write the I/O List to an Output .CSV File ==== and ==== Inform the
    User of where the List is ==== *)
Definition write_report (io : string * dict * dict) : M unit :=
  let '(moduleName, inputDictionary, outputDictionary) := io in
  let outputCsvFileName := (moduleName ++ "_io.csv")%string in
  open_w outputCsvFileName ;;
  writerow header ;;
  for_each inputDictionary (write_port "Input") tt ;;
  for_each outputDictionary (write_port "Output") tt ;;
  print (jobDoneMsg moduleName outputCsvFileName) ;;
  print (goodbyeMsg outputCsvFileName) ;;
  exit.

Definition main (moduleContents : string) : M unit :=
  io <- extract moduleContents ;;
  write_report io.

(** A run from a silent console and no report file. *)
Definition run (moduleContents : string) : world * res unit :=
  main moduleContents (World [] None).

(** *** The script on a file system that may refuse the report

    [open(outputCsvFileName, 'w')] raises OSError when the file cannot be
    opened for writing (a name too long for the file system, a directory
    without write permission).  [writable] is the answer of the file system
    for each file name; [run] above is the case where it grants every
    file. *)

Definition open_w_on (writable : string -> bool) (name : string) : M unit :=
  if writable name then open_w name else raise OSError.

Definition write_report_on (writable : string -> bool)
    (io : string * dict * dict) : M unit :=
  let '(moduleName, inputDictionary, outputDictionary) := io in
  let outputCsvFileName := (moduleName ++ "_io.csv")%string in
  open_w_on writable outputCsvFileName ;;
  writerow header ;;
  for_each inputDictionary (write_port "Input") tt ;;
  for_each outputDictionary (write_port "Output") tt ;;
  print (jobDoneMsg moduleName outputCsvFileName) ;;
  print (goodbyeMsg outputCsvFileName) ;;
  exit.

Definition main_on (writable : string -> bool) (moduleContents : string)
    : M unit :=
  io <- extract moduleContents ;;
  write_report_on writable io.

Definition run_on (writable : string -> bool) (moduleContents : string)
    : world * res unit :=
  main_on writable moduleContents (World [] None).

(** ** Vocabulary of the statements *)

Definition tab : string := String "009" "".
Definition nl : string := String "010" "".

(** *** Strings and positions *)

Fixpoint drop (n : nat) (s : string) : string :=
  match n, s with
  | S k, String _ s' => drop k s'
  | _, _ => s
  end.

Fixpoint all_in (cs : cset) (w : string) : bool :=
  match w with
  | EmptyString => true
  | String c w' => in_cset c cs && all_in cs w'
  end.

(** A run of white space. *)
Definition blank (w : string) : bool := all_in [Space] w.

Fixpoint skip_blank (s : string) : string :=
  match s with
  | String c s' => if is_space c then skip_blank s' else s
  | EmptyString => s
  end.

Definition starts_with (l s : string) : bool :=
  match strip l s with Some _ => true | None => false end.

(** The character before position [pos] of a text, if any. *)
Definition char_before (text : string) (pos : nat) : option ascii :=
  last_char None (take pos text).

(** *** Occurrences of a pattern *)

(** One attempt of a pattern at position [pos] of a text. *)
Definition match_at (r : regex) (text : string) (pos : nat) : option mstate :=
  match_here r (char_before text pos) (drop pos text).

(** The pattern matches at position [pos]: a textual occurrence. *)
Definition occurs (r : regex) (text : string) (pos : nat) : bool :=
  (pos <=? String.length text) &&
  match match_at r text pos with Some _ => true | None => false end.

(** The matches lie at or after [lo], one after the other without overlap. *)
Fixpoint in_order (lo : nat) (ms : list match_obj) : Prop :=
  match ms with
  | [] => True
  | m :: ms' =>
      lo <= m_start m /\ m_start m <= m_end m /\
      in_order (Nat.max (m_end m) (S (m_start m))) ms'
  end.

(** How many of the matches start at [pos]. *)
Definition count_at (pos : nat) (ms : list match_obj) : nat :=
  List.length (filter (fun m => m_start m =? pos) ms).

(** [scanned r text]: the matches of [r] in [text] lie one after the other
    without overlap; each is an occurrence of [r], listed once, with the
    groups of the match at its position and with its end where that match
    ends, the text from there on being what the match left unread; and
    every occurrence of [r] is listed once unless it starts inside a listed
    match. *)
Definition scanned (r : regex) (text : string) : Prop :=
  let ms := finditer r text in
  in_order 0 ms /\
  (forall m, In m ms ->
     occurs r text (m_start m) = true /\
     count_at (m_start m) ms = 1 /\
     exists st', match_at r text (m_start m) = Some st' /\
                 m_groups m = caps st' /\
                 m_end m <= String.length text /\
                 drop (m_end m) text = rest st') /\
  (forall pos, occurs r text pos = true ->
     count_at pos ms = 1 \/
     exists m, In m ms /\ m_start m < pos /\ pos < m_end m).

(** [step w g st st']: from [st] to [st'] the matcher reads [w] and
    records the groups [g]. *)
Definition step (w : string) (g : list (nat * string)) (st st' : mstate)
    : Prop :=
  rest st = (w ++ rest st')%string /\ caps st' = g ++ caps st.

(** *** The parts of a port declaration *)

Definition storage_class (ty : string) : Prop :=
  ty = "" \/ ty = "wire" \/ ty = "reg".

(** A bracket expression or one of the two placeholders. *)
Definition bracket_expr (d : string) : Prop :=
  (exists x, x <> "" /\ all_in dim_chars x = true /\
             d = ("[" ++ x ++ "]")%string) \/
  (exists x, x <> "" /\ all_in letters_ x = true /\
             d = ("$${" ++ x ++ "}")%string) \/
  (exists x, x <> "" /\ all_in letters_ x = true /\
             d = ("$[" ++ x ++ "]")%string).

(** [declaration kw s t tail]: the text [s] starts with a declaration under
    the keyword [kw] whose parts are the groups of [t], in this order, and
    goes on with [tail]. *)
Definition declaration (kw s : string) (t : tuple5) (tail : string) : Prop :=
  let '(g1, g2, g3, g4, g5) := t in
  exists w1 w2 w3 w4 w5 c : string,
    s = (kw ++ w1 ++ g2 ++ w2 ++ g3 ++ w3 ++ g4 ++ w4 ++ g5 ++ w5 ++ c
            ++ tail)%string /\
    g1 = kw /\
    w1 <> "" /\ blank w1 = true /\ blank w2 = true /\ blank w3 = true /\
    blank w4 = true /\ blank w5 = true /\ (c = "" \/ c = ",") /\
    storage_class g2 /\
    (g3 = "" \/ bracket_expr g3) /\ (g4 = "" \/ bracket_expr g4) /\
    g5 <> "" /\ all_in port_name g5 = true.

(** The text is at the end of a word: it is empty or goes on with a
    character that is no letter, digit or underscore. *)
Definition word_ends (s : string) : bool :=
  match s with
  | EmptyString => true
  | String c _ => negb (is_word c)
  end.

(** The text starts with the word [l] itself, not with a longer word. *)
Definition keyword_at (l s : string) : bool :=
  match strip l s with
  | Some s' => word_ends s'
  | None => false
  end.

(** After white space, the text goes on with the keyword [wire] or [reg]. *)
Definition keyword_follows (s : string) : bool :=
  keyword_at "wire" (skip_blank s) || keyword_at "reg" (skip_blank s).

(** *** Tuples and dictionaries *)

(** The fields of a tuple of [findall], as the loops read them:
    [t[4]] for the name, [t[1]] and [t[2] + t[3]] for the value. *)
Definition name5 (t : tuple5) : string :=
  let '(_, _, _, _, signalName) := t in signalName.

Definition info5 (t : tuple5) : port_info :=
  let '(_, signalType, dimA, dimB, _) := t in
  PortInfo signalType (dimA ++ dimB)%string.

(** The dictionary a loop leaves for a list of tuples. *)
Definition add5 (d : dict) (t : tuple5) : dict :=
  dict_set (name5 t) (info5 t) d.

Definition build (l : list tuple5) : dict := fold_left add5 l [].

Definition mem (x : string) (l : list string) : bool :=
  existsb (String.eqb x) l.

(** The names of a list in the order they are first seen. *)
Fixpoint uniq (l : list string) : list string :=
  match l with
  | [] => []
  | x :: l' => x :: filter (fun y => negb (String.eqb y x)) (uniq l')
  end.

(** The last tuple of a list that declares [k]. *)
Definition last_named (k : string) (l : list tuple5) : option tuple5 :=
  find (fun t => String.eqb (name5 t) k) (rev l).

(** [m] is the last match of the port rule for [kw] that names [k]. *)
Definition last_match (kw text k : string) (m : match_obj) : Prop :=
  In m (finditer (portPattern kw) text) /\
  last_named k (findall5 (portPattern kw) text) = Some (groups5 m).

(** [merged l d]: the dictionary [d] holds the names of the tuples [l] in
    the order they are first seen, each name once, with the fields of the
    last tuple that declares it. *)
Definition merged (l : list tuple5) (d : dict) : Prop :=
  keys d = uniq (map name5 l) /\
  (forall k, dict_get k d = option_map info5 (last_named k l)) /\
  (forall t, In t l ->
     List.length (filter (fun kv => String.eqb (fst kv) (name5 t)) d) = 1).

(** [dimension_from_captures kw text d]: every entry of [d] comes from the
    last declaration of its name under [kw]; the two bracket expressions of
    that declaration stand in the text in this order, each possibly absent,
    and the dimension is the first followed by the second. *)
Definition dimension_from_captures (kw text : string) (d : dict) : Prop :=
  forall (k : string) (v : port_info),
    dict_get k d = Some v ->
    exists (m : match_obj) (tail : string),
      last_match kw text k m /\
      declaration kw (drop (m_start m) text) (groups5 m) tail /\
      signalDimension v
      = (group 3 (m_groups m) ++ group 4 (m_groups m))%string /\
      (group 3 (m_groups m) = "" -> group 4 (m_groups m) = "" ->
       signalDimension v = "").

(** [class_from_keyword kw text d]: the storage class of every entry of [d]
    is the second group of the last declaration of its name: [wire], [reg]
    or nothing, and nothing whenever the text after the direction keyword
    and its white space does not go on with the word [wire] or the word
    [reg]; a name that only begins with one of them is not the keyword. *)
Definition class_from_keyword (kw text : string) (d : dict) : Prop :=
  forall (k : string) (v : port_info),
    dict_get k d = Some v ->
    exists m : match_obj,
      last_match kw text k m /\
      signalType v = group 2 (m_groups m) /\
      storage_class (signalType v) /\
      (keyword_follows (drop (m_start m + String.length kw) text) = false ->
       signalType v = "").

(** *** Runs *)

(** The rows of the report for one dictionary. *)
Definition rows_of (label : string) (d : dict) : list row :=
  map (fun item : string * port_info =>
         [fst item; label; signalType (snd item); signalDimension (snd item)])
      d.

(** What [extract] does, by the three lists of matches. *)
Definition extract_outcome (names : list string) (ins outs : list tuple5)
    (w : world) : world * res (string * dict * dict) :=
  match names with
  | [moduleName] =>
      match ins, outs with
      | [], [] =>
          (World (printed w ++ [noInputsIdentified; noOutputsIdentified])
                 (report w), Raise (NameError "numInputs"))
      | [], _ :: _ =>
          (World (printed w ++ [noInputsIdentified]) (report w),
           Raise (NameError "numInputs"))
      | _ :: _, [] =>
          (World (printed w ++ [noOutputsIdentified]) (report w),
           Raise (NameError "numOutputs"))
      | _ :: _, _ :: _ => (w, Ok (moduleName, build ins, build outs))
      end
  | _ => (World (printed w ++ [moduleNameNotIdentified]) (report w),
          Raise SystemExit)
  end.

(** What a run does, by the three lists of matches it computes. *)
Definition run_outcome (names : list string) (ins outs : list tuple5)
    : world * res unit :=
  match extract_outcome names ins outs (World [] None) with
  | (w', Ok io) => write_report io w'
  | (w', Raise e) => (w', Raise e)
  end.

Definition is_noParamsFound (m : message) : bool :=
  match m with
  | noParamsFound => true
  | _ => false
  end.

(** *** Sample texts *)

(** The header of the specification's round-trip property, and the same
    header with every port on a line of its own. *)
Definition canonical : string :=
  "module foo (input a, input [7:0] b, output reg busy);".

Definition canonical_lines : string :=
  ("module foo (input a," ++ nl ++ "input [7:0] b," ++ nl
   ++ "output reg busy);")%string.

(** A module that declares [a] twice as an input and [y] twice as an
    output. *)
Definition twice_declared : string :=
  ("module m (input a," ++ nl ++ "input [3:0] b," ++ nl
   ++ "input reg [1:0][7:0] a," ++ nl ++ "output wire y," ++ nl
   ++ "output y);")%string.

(** Two input declarations, the second inside the first: after [input] and
    a tab the word [input] is read as the port name. *)
Definition overlapped : string :=
  ("input" ++ tab ++ "input" ++ tab ++ "x")%string.

(** The module of the script's own moduleNameNotIdentified message, indented
    with tabs. *)
Definition serialTX : string :=
  ("module serialTX #" ++ nl
   ++ tab ++ "(" ++ nl
   ++ tab ++ "parameter INCR = 26'd25770 // amount by which the accumulator is incremented" ++ nl
   ++ tab ++ ")" ++ nl
   ++ tab ++ "(" ++ nl
   ++ tab ++ "input clk," ++ nl
   ++ tab ++ "input reset," ++ nl
   ++ tab ++ "input [7:0] data," ++ nl
   ++ tab ++ "input send," ++ nl
   ++ tab ++ "output reg txOut," ++ nl
   ++ tab ++ "output busy" ++ nl
   ++ tab ++ ");" ++ nl)%string.

(** Ports whose names begin with a storage-class keyword, beside ports
    that carry one. *)
Definition keyword_names : string :=
  ("module m (input regfile," ++ nl ++ "input wire_en," ++ nl
   ++ "input wire w," ++ nl ++ "output reg r," ++ nl
   ++ "output wires);")%string.

(** A module whose name has 249 letters, and a file system that takes
    file names of up to 255 characters. *)
Fixpoint letters (n : nat) : string :=
  match n with
  | O => ""
  | S k => String "a" (letters k)
  end.

Definition long_named : string :=
  ("module " ++ letters 249 ++ " (input a," ++ nl ++ "output b);")%string.

Definition short_names (name : string) : bool := String.length name <=? 255.

(** Two module headers in one text, and a text with an output only. *)
Definition two_modules : string :=
  ("module a (input x);" ++ nl ++ "module b (output y);")%string.

Definition output_only : string := "module m (output y);".

(** *** Further vocabulary *)

(** The two messages about an empty list of ports. *)
Definition is_advisory (m : message) : bool :=
  match m with
  | noInputsIdentified | noOutputsIdentified => true
  | _ => false
  end.

(** The characters that make [csv.writer] quote a cell: the delimiter, the
    quote character and the characters of the line terminator. *)
Definition special (c : ascii) : bool :=
  Ascii.eqb c "," || Ascii.eqb c "034" || Ascii.eqb c "013"
  || Ascii.eqb c "010".

Fixpoint plain (s : string) : bool :=
  match s with
  | EmptyString => true
  | String c s' => negb (special c) && plain s'
  end.

(** A row of four cells, none of which needs quoting. *)
Definition well_formed_row (r : row) : bool :=
  (List.length r =? 4) && forallb plain r.

(** [module_header s name tail]: the text [s] starts with a module header
    that names [name] and goes on with [tail] after the opening
    parenthesis. *)
Definition module_header (s name tail : string) : Prop :=
  exists w1 p w2 h w3 : string,
    s = ("module" ++ w1 ++ p ++ name ++ w2 ++ h ++ w3 ++ "(" ++ tail)%string /\
    w1 <> "" /\ blank w1 = true /\ (p = "" \/ p = "$[PREFIX]") /\
    name <> "" /\ all_in ident name = true /\
    all_in nl_space w2 = true /\ (h = "" \/ h = "#") /\
    all_in nl_space w3 = true.

(** A bracket expression proper, without the placeholders. *)
Definition square_bracket (d : string) : Prop :=
  exists x, x <> "" /\ all_in dim_chars x = true /\
            d = ("[" ++ x ++ "]")%string.

(** [parameter_decl s name tail]: the text [s] starts with a parameter
    declaration of [name], with at most two bracket expressions before the
    name, and goes on with [tail] after the equals sign. *)
Definition parameter_decl (s name tail : string) : Prop :=
  exists w1 d1 wa d2 wb w2 w3 : string,
    s = ("parameter" ++ w1 ++ d1 ++ wa ++ d2 ++ wb ++ w2 ++ name ++ w3
         ++ "=" ++ tail)%string /\
    blank w1 = true /\ blank wa = true /\ blank wb = true /\
    blank w2 = true /\ blank w3 = true /\
    (d1 = "" \/ square_bracket d1) /\ (d2 = "" \/ square_bracket d2) /\
    name <> "" /\ all_in ident name = true.

(** [reads r p s p' s']: whatever groups are held, the pattern [r] can go
    from the text [s], with [p] before it, to the text [s'], with [p']
    before it. *)
Definition reads (r : regex) (p : option ascii) (s : string)
    (p' : option ascii) (s' : string) : Prop :=
  forall g, exists g', In (MState p' s' g') (run_re r (MState p s g)).

(** A text with a declaration that is commented out and a signal whose name
    ends in a keyword. *)
Definition commented : string :=
  ("module m (//input a," ++ nl ++ "input b," ++ nl
   ++ "output data_input);")%string.

(** [spans kw r text]: every match of [r] in [text] starts with the
    keyword [kw], is at least as long and ends within the text. *)
Definition spans (kw : string) (r : regex) (text : string) : Prop :=
  forall m : match_obj,
    In m (finditer r text) ->
    starts_with kw (drop (m_start m) text) = true /\
    m_start m + String.length kw <= m_end m /\
    m_end m <= String.length text.

(** The row of the report for one tuple of [findall]. *)
Definition tuple_row (label : string) (t : tuple5) : row :=
  [name5 t; label; signalType (info5 t); signalDimension (info5 t)].

(** [eats r w]: wherever it stands, the pattern [r] can read the text
    [w]. *)
Definition eats (r : regex) (w : string) : Prop :=
  forall p s', reads r p (w ++ s') (last_char p w) s'.

(** * Properties *)

(** ** The model at work *)

Example serialTX_matches :
  findall1 moduleNamePattern serialTX = ["serialTX"] /\
  findall5 moduleInputsPattern serialTX
  = [("input", "", "", "", "clk"); ("input", "", "", "", "reset");
     ("input", "", "[7:0]", "", "data"); ("input", "", "", "", "send")] /\
  findall5 moduleOutputsPattern serialTX
  = [("output", "reg", "", "", "txOut"); ("output", "", "", "", "busy")] /\
  findall1 moduleParamsPattern serialTX = ["INCR"].
Proof. repeat split; vm_compute; reflexivity. Qed.

Example serialTX_run :
  run serialTX
  = (World [jobDoneMsg "serialTX" "serialTX_io.csv";
            goodbyeMsg "serialTX_io.csv"]
           (Some ("serialTX_io.csv",
                  [["Signal Name"; "Input/Output"; "Signal Type"; "Dimension"];
                   ["clk"; "Input"; ""; ""];
                   ["reset"; "Input"; ""; ""];
                   ["data"; "Input"; ""; "[7:0]"];
                   ["send"; "Input"; ""; ""];
                   ["txOut"; "Output"; "reg"; ""];
                   ["busy"; "Output"; ""; ""]])),
     Raise SystemExit).
Proof. vm_compute. reflexivity. Qed.

(** Greedy matching with backtracking: [wire] is first read as the storage
    class and, no name following, given back and read as the name. *)
Example wire_as_a_name :
  findall5 moduleInputsPattern "input wire, b" = [("input", "", "", "", "wire")].
Proof. vm_compute. reflexivity. Qed.

(** [\b]: [wirex] is a name, not the keyword [wire] and a name [x]. *)
Example word_boundary :
  findall5 moduleInputsPattern "input wirex" = [("input", "", "", "", "wirex")].
Proof. vm_compute. reflexivity. Qed.

(** Two bracket expressions and the placeholders of a template. *)
Example two_dimensions :
  findall5 moduleOutputsPattern
    ("output reg [`W-1:0] [0:3] mem," ++ nl ++ "output $${WIDTH}$[DEPTH] q")
  = [("output", "reg", "[`W-1:0]", "[0:3]", "mem");
     ("output", "", "$${WIDTH}", "$[DEPTH]", "q")].
Proof. vm_compute. reflexivity. Qed.

(** ** The loops *)

Lemma for_each_add_port (nm : string) (l2 : list tuple5) :
  forall (l1 : list tuple5) (d : dict) (w : world),
    for_each (seq (List.length l1) (List.length l2))
             (add_port (Some (l1 ++ l2)) nm) d w
    = (w, Ok (fold_left add5 l2 d)).
Proof.
  induction l2 as [|t l2 IH]; intros l1 d w; [reflexivity|].
  cbn [List.length seq for_each fold_left].
  unfold bind at 1. unfold add_port at 1. cbn [var].
  unfold bind at 1, ret at 1. unfold index.
  rewrite nth_error_app2 by lia. rewrite Nat.sub_diag. cbn [nth_error].
  unfold bind at 1, ret at 1.
  destruct t as [[[[g1 g2] g3] g4] g5]. unfold ret at 1.
  specialize (IH (l1 ++ [(g1, g2, g3, g4, g5)])
                 (add5 d (g1, g2, g3, g4, g5)) w).
  rewrite <- app_assoc, length_app, Nat.add_1_r in IH. exact IH.
Qed.

Lemma form_dictionary_bound (nn ln : string) (l : list tuple5) (w : world) :
  form_dictionary nn (Some (List.length l)) ln (Some l) w = (w, Ok (build l)).
Proof.
  unfold form_dictionary, var, range. unfold bind at 1, ret at 1.
  rewrite Nat.sub_0_r. apply (for_each_add_port ln l [] [] w).
Qed.

Lemma for_each_write_port (lab : string) (d : dict) :
  forall (p : list message) (f : string) (rows : list row),
    for_each d (write_port lab) tt (World p (Some (f, rows)))
    = (World p (Some (f, rows ++ rows_of lab d)), Ok tt).
Proof.
  induction d as [|[k v] d IH]; intros p f rows; cbn [for_each rows_of map].
  - rewrite app_nil_r. reflexivity.
  - unfold bind at 1. cbn [write_port writerow report printed fst snd].
    rewrite IH. rewrite <- app_assoc. reflexivity.
Qed.

Lemma write_report_spec (moduleName : string) (ins outs : dict) (w : world) :
  write_report (moduleName, ins, outs) w
  = (World (printed w ++ [jobDoneMsg moduleName (moduleName ++ "_io.csv");
                          goodbyeMsg (moduleName ++ "_io.csv")])
           (Some ((moduleName ++ "_io.csv")%string,
                  header :: rows_of "Input" ins ++ rows_of "Output" outs)),
     Raise SystemExit).
Proof.
  unfold write_report.
  unfold bind at 1. cbn [open_w].
  unfold bind at 1. cbn [writerow report printed app].
  unfold bind at 1. rewrite for_each_write_port.
  unfold bind at 1. rewrite for_each_write_port.
  unfold bind at 1. cbn [print printed report].
  unfold bind at 1. cbn [print printed report].
  unfold exit, raise. rewrite <- !app_assoc. reflexivity.
Qed.

(** ** The script, stage by stage *)

Lemma extract_module_name_spec (text : string) (w : world) :
  extract_module_name text w =
  match findall1 moduleNamePattern text with
  | [moduleName] => (w, Ok moduleName)
  | _ => (World (printed w ++ [moduleNameNotIdentified]) (report w),
          Raise SystemExit)
  end.
Proof.
  unfold extract_module_name.
  destruct (findall1 moduleNamePattern text) as [|n [|n' l]]; reflexivity.
Qed.

Lemma extract_io_spec (pattern : regex) (msg : message) (text : string)
    (w : world) :
  extract_io pattern msg text w =
  match findall5 pattern text with
  | [] => (World (printed w ++ [msg]) (report w), Ok (None, None))
  | l => (w, Ok (Some l, Some (List.length l)))
  end.
Proof.
  unfold extract_io.
  destruct (findall5 pattern text) as [|t l]; reflexivity.
Qed.

Lemma extract_spec (text : string) (w : world) :
  extract text w =
  extract_outcome (findall1 moduleNamePattern text)
                  (findall5 moduleInputsPattern text)
                  (findall5 moduleOutputsPattern text) w.
Proof.
  unfold extract, extract_outcome.
  unfold bind at 1. rewrite extract_module_name_spec.
  destruct (findall1 moduleNamePattern text) as [|n [|n' l]];
    [reflexivity| |reflexivity].
  unfold bind at 1. rewrite extract_io_spec.
  destruct (findall5 moduleInputsPattern text) as [|ti ins] eqn:Ei.
  - unfold bind at 1. rewrite extract_io_spec.
    destruct (findall5 moduleOutputsPattern text) as [|to outs] eqn:Eo.
    + cbn [printed report]. rewrite <- app_assoc. reflexivity.
    + reflexivity.
  - unfold bind at 1. rewrite extract_io_spec.
    destruct (findall5 moduleOutputsPattern text) as [|to outs] eqn:Eo.
    + unfold bind at 1. rewrite form_dictionary_bound. reflexivity.
    + unfold bind at 1. rewrite form_dictionary_bound.
      unfold bind at 1. rewrite form_dictionary_bound. reflexivity.
Qed.

Lemma main_spec (text : string) (w : world) :
  main text w =
  match extract text w with
  | (w', Ok io) => write_report io w'
  | (w', Raise e) => (w', Raise e)
  end.
Proof. reflexivity. Qed.

Lemma extract_ok_inv (text : string) (w w' : world) (moduleName : string)
    (ins outs : dict) :
  extract text w = (w', Ok (moduleName, ins, outs)) ->
  w' = w /\
  findall1 moduleNamePattern text = [moduleName] /\
  findall5 moduleInputsPattern text <> [] /\
  findall5 moduleOutputsPattern text <> [] /\
  ins = build (findall5 moduleInputsPattern text) /\
  outs = build (findall5 moduleOutputsPattern text).
Proof.
  rewrite extract_spec. unfold extract_outcome.
  destruct (findall1 moduleNamePattern text) as [|n [|n' l]];
    [discriminate| |discriminate].
  destruct (findall5 moduleInputsPattern text) as [|ti li];
    destruct (findall5 moduleOutputsPattern text) as [|to lo];
    try discriminate.
  intros H. injection H as -> -> -> ->.
  repeat split; discriminate.
Qed.

(** ** Dictionaries *)

Lemma dict_get_set_same (k : string) (v : port_info) (d : dict) :
  dict_get k (dict_set k v d) = Some v.
Proof.
  induction d as [|[k' v'] d IH]; cbn.
  - rewrite String.eqb_refl. reflexivity.
  - destruct (String.eqb k' k) eqn:E; cbn; rewrite E; auto.
Qed.

Lemma dict_get_set_other (k k' : string) (v : port_info) (d : dict) :
  String.eqb k k' = false ->
  dict_get k' (dict_set k v d) = dict_get k' d.
Proof.
  intros Hne. induction d as [|[k0 v0] d IH]; cbn.
  - rewrite Hne. reflexivity.
  - destruct (String.eqb k0 k) eqn:E; cbn.
    + apply String.eqb_eq in E. subst k0. rewrite Hne. reflexivity.
    + rewrite IH. reflexivity.
Qed.

Lemma keys_dict_set (k : string) (v : port_info) (d : dict) :
  keys (dict_set k v d) = if mem k (keys d) then keys d else keys d ++ [k].
Proof.
  unfold keys, mem. induction d as [|[k' v'] d IH]; cbn; [reflexivity|].
  rewrite (String.eqb_sym k k').
  destruct (String.eqb k' k) eqn:E; cbn; [reflexivity|].
  rewrite IH. destruct (existsb (String.eqb k) (map fst d)); reflexivity.
Qed.

Lemma filter_fresh_known (x : string) (K u : list string) :
  mem x K = true ->
  filter (fun y => negb (mem y K)) (filter (fun y => negb (String.eqb y x)) u)
  = filter (fun y => negb (mem y K)) u.
Proof.
  intros Hx. induction u as [|y u IH]; cbn; [reflexivity|].
  destruct (String.eqb y x) eqn:E; cbn.
  - apply String.eqb_eq in E. subst y. rewrite Hx. cbn. exact IH.
  - rewrite IH. reflexivity.
Qed.

Lemma mem_snoc (y x : string) (K : list string) :
  mem y (K ++ [x]) = mem y K || String.eqb y x.
Proof.
  unfold mem. rewrite existsb_app. cbn. rewrite orb_false_r. reflexivity.
Qed.

Lemma filter_fresh_snoc (x : string) (K u : list string) :
  filter (fun y => negb (mem y (K ++ [x]))) u
  = filter (fun y => negb (mem y K)) (filter (fun y => negb (String.eqb y x)) u).
Proof.
  induction u as [|y u IH]; cbn; [reflexivity|].
  rewrite mem_snoc, IH.
  destruct (String.eqb y x) eqn:E1, (mem y K) eqn:E2; cbn;
    rewrite ?E2; reflexivity.
Qed.

Lemma keys_fold (l : list tuple5) :
  forall d : dict,
    keys (fold_left add5 l d)
    = keys d ++ filter (fun y => negb (mem y (keys d))) (uniq (map name5 l)).
Proof.
  induction l as [|t l IH]; intros d; cbn [fold_left map uniq].
  - cbn. rewrite app_nil_r. reflexivity.
  - rewrite IH. unfold add5 at 1 2. rewrite keys_dict_set.
    cbn [filter]. destruct (mem (name5 t) (keys d)) eqn:E; cbn [negb].
    + rewrite filter_fresh_known by exact E. reflexivity.
    + rewrite filter_fresh_snoc, <- app_assoc. reflexivity.
Qed.

Lemma keys_build (l : list tuple5) : keys (build l) = uniq (map name5 l).
Proof.
  unfold build. rewrite keys_fold. cbn.
  induction (uniq (map name5 l)) as [|y u IH]; cbn; congruence.
Qed.

Lemma uniq_In (x : string) (l : list string) : In x (uniq l) <-> In x l.
Proof.
  induction l as [|y l IH]; cbn; [tauto|].
  rewrite filter_In, IH. destruct (String.eqb x y) eqn:E.
  - apply String.eqb_eq in E. subst. cbn. tauto.
  - cbn. assert (y <> x) by (intros ->; rewrite String.eqb_refl in E; discriminate).
    tauto.
Qed.

Lemma uniq_NoDup (l : list string) : NoDup (uniq l).
Proof.
  induction l as [|y l IH]; cbn; constructor.
  - rewrite filter_In. intros [_ H]. rewrite String.eqb_refl in H. discriminate.
  - apply NoDup_filter. exact IH.
Qed.

Lemma find_snoc {A} (f : A -> bool) (l : list A) (a : A) :
  find f (l ++ [a])
  = match find f l with
    | Some x => Some x
    | None => if f a then Some a else None
    end.
Proof.
  induction l as [|b l IH]; cbn; [reflexivity|].
  destruct (f b); [reflexivity|exact IH].
Qed.

Lemma dict_get_fold (k : string) (l : list tuple5) :
  forall d : dict,
    dict_get k (fold_left add5 l d)
    = match last_named k l with
      | Some t => Some (info5 t)
      | None => dict_get k d
      end.
Proof.
  unfold last_named.
  induction l as [|t l IH]; intros d; cbn [fold_left rev]; [reflexivity|].
  rewrite IH, find_snoc.
  destruct (find (fun t0 => String.eqb (name5 t0) k) (rev l)); [reflexivity|].
  unfold add5. destruct (String.eqb (name5 t) k) eqn:E.
  - apply String.eqb_eq in E. subst k. apply dict_get_set_same.
  - apply dict_get_set_other. exact E.
Qed.

Lemma dict_get_build (k : string) (l : list tuple5) :
  dict_get k (build l) = option_map info5 (last_named k l).
Proof.
  unfold build. rewrite dict_get_fold.
  destruct (last_named k l); reflexivity.
Qed.

Lemma one_entry (k : string) (d : dict) :
  NoDup (keys d) -> In k (keys d) ->
  List.length (filter (fun kv => String.eqb (fst kv) k) d) = 1.
Proof.
  unfold keys. induction d as [|[k' v] d IH]; cbn; [tauto|].
  intros Hnd Hin. inversion Hnd as [|? ? Hni Hnd']; subst.
  destruct (String.eqb k' k) eqn:E.
  - apply String.eqb_eq in E. subst k'. cbn. f_equal.
    clear IH Hin Hnd Hnd'. induction d as [|[k2 v2] d IH]; cbn; [reflexivity|].
    cbn in Hni. destruct (String.eqb k2 k) eqn:E2.
    + apply String.eqb_eq in E2. tauto.
    + apply IH. tauto.
  - apply IH; [exact Hnd'|]. destruct Hin as [->|H]; [|exact H].
    rewrite String.eqb_refl in E. discriminate.
Qed.

Lemma last_named_In (k : string) (l : list tuple5) (t : tuple5) :
  last_named k l = Some t -> In t l /\ name5 t = k.
Proof.
  unfold last_named. intros H. apply find_some in H. destruct H as [Hin E].
  rewrite <- in_rev in Hin. apply String.eqb_eq in E. auto.
Qed.

(** ** Strings *)

Lemma sapp_assoc (a b c : string) :
  ((a ++ b) ++ c)%string = (a ++ b ++ c)%string.
Proof. induction a; cbn; congruence. Qed.

Lemma slength_app (a b : string) :
  String.length (a ++ b) = String.length a + String.length b.
Proof. induction a; cbn; congruence. Qed.

Lemma take_app (a b : string) : take (String.length a) (a ++ b) = a.
Proof. induction a; cbn; [destruct b; reflexivity|congruence]. Qed.

Lemma drop_app (a b : string) : drop (String.length a) (a ++ b) = b.
Proof. induction a; cbn; [destruct b; reflexivity|assumption]. Qed.

Lemma take_drop (n : nat) (s : string) : (take n s ++ drop n s)%string = s.
Proof.
  revert s. induction n as [|n IH]; intros [|c s]; cbn; try reflexivity.
  rewrite IH. reflexivity.
Qed.

Lemma take_length (n : nat) (s : string) :
  n <= String.length s -> String.length (take n s) = n.
Proof.
  revert s. induction n as [|n IH]; intros [|c s]; cbn; intros H;
    try reflexivity; try lia.
  rewrite IH by lia. reflexivity.
Qed.

Lemma sapp_inv (a b c d : string) :
  String.length a = String.length c ->
  (a ++ b)%string = (c ++ d)%string -> a = c /\ b = d.
Proof.
  revert c. induction a as [|x a IH]; intros [|y c] Hl H; cbn in *;
    try discriminate; [auto|].
  injection H as -> H. destruct (IH c) as [-> ->]; auto.
Qed.

Lemma last_char_app (p : option ascii) (a b : string) :
  last_char p (a ++ b) = last_char (last_char p a) b.
Proof. revert p. induction a as [|x a IH]; intros p; cbn; auto. Qed.

Lemma strip_app (l s t : string) : strip l s = Some t -> s = (l ++ t)%string.
Proof.
  revert s. induction l as [|a l IH]; intros s H; cbn in *.
  - congruence.
  - destruct s as [|b s]; [discriminate|].
    destruct (Ascii.eqb a b) eqn:E; [|discriminate].
    apply Ascii.eqb_eq in E. subst b. f_equal. auto.
Qed.

(** ** The scan *)

Section Scan.

Variable r : regex.

Lemma scan_sound (s : string) :
  forall (pre : string) (skip : nat) (m : match_obj),
    In m (scan r (last_char None pre) s (String.length pre) skip) ->
    exists (before s' : string) (st' : mstate),
      (pre ++ s)%string = (before ++ s')%string /\
      m_start m = String.length before /\
      match_here r (last_char None before) s' = Some st' /\
      m_groups m = caps st' /\
      m_end m
      = String.length before + (String.length s' - String.length (rest st')).
Proof.
  assert (Hstep : forall pre c,
             Some c = last_char None (pre ++ String c "") /\
             S (String.length pre) = String.length (pre ++ String c "")).
  { intros pre c. rewrite last_char_app, slength_app. cbn. split; [auto|lia]. }
  induction s as [|c s IH]; intros pre skip m Hin.
  - destruct skip; cbn in Hin; [|tauto].
    destruct (match_here r (last_char None pre) "") as [st'|] eqn:E;
      [|contradiction].
    destruct Hin as [<-|[]]. exists pre, "", st'. cbn. auto.
  - assert (Hrec : forall k,
               In m (scan r (Some c) s (S (String.length pre)) k) ->
               exists before s' st',
                 (pre ++ String c s)%string = (before ++ s')%string /\
                 m_start m = String.length before /\
                 match_here r (last_char None before) s' = Some st' /\
                 m_groups m = caps st' /\
                 m_end m = String.length before
                           + (String.length s' - String.length (rest st'))).
    { intros k Hk. destruct (Hstep pre c) as [Hp Hl].
      rewrite Hp, Hl in Hk. apply IH in Hk.
      rewrite sapp_assoc in Hk. exact Hk. }
    destruct skip as [|k]; cbn [scan] in Hin; [|eauto].
    destruct (match_here r (last_char None pre) (String c s)) as [st'|] eqn:E;
      [|eauto].
    destruct Hin as [<-|Hin]; [|eauto].
    exists pre, (String c s), st'. cbn. auto.
Qed.

Lemma scan_complete (s : string) :
  forall (pre : string) (skip : nat) (before s' : string) (st' : mstate),
    (pre ++ s)%string = (before ++ s')%string ->
    String.length pre + skip <= String.length before ->
    match_here r (last_char None before) s' = Some st' ->
    let ms := scan r (last_char None pre) s (String.length pre) skip in
    (exists m, In m ms /\ m_start m = String.length before) \/
    (exists m, In m ms /\
               m_start m < String.length before /\
               String.length before < m_end m).
Proof.
  assert (Hstep : forall pre c,
             Some c = last_char None (pre ++ String c "") /\
             S (String.length pre) = String.length (pre ++ String c "")).
  { intros pre c. rewrite last_char_app, slength_app. cbn. split; [auto|lia]. }
  induction s as [|c s IH]; intros pre skip before s' st' Heq Hle Hm ms.
  - assert (Hl : String.length pre = String.length before /\ skip = 0).
    { apply (f_equal String.length) in Heq. rewrite !slength_app in Heq.
      cbn in Heq. lia. }
    destruct Hl as [Hl ->]. destruct (sapp_inv _ _ _ _ Hl Heq) as [<- <-].
    left. subst ms. cbn. rewrite Hm. eexists. split; [left; reflexivity|].
    reflexivity.
  - assert (Hrec : forall k,
               S (String.length pre) + k <= String.length before ->
               let ms' := scan r (Some c) s (S (String.length pre)) k in
               (exists m, In m ms' /\ m_start m = String.length before) \/
               (exists m, In m ms' /\ m_start m < String.length before /\
                          String.length before < m_end m)).
    { intros k Hk. destruct (Hstep pre c) as [Hp Hl]. rewrite Hp, Hl.
      apply (IH (pre ++ String c "")%string k before s' st'); auto.
      - rewrite sapp_assoc. exact Heq.
      - rewrite <- Hl. exact Hk. }
    subst ms. destruct skip as [|k]; cbn [scan].
    + destruct (Nat.eq_dec (String.length pre) (String.length before)) as [Hl|Hl].
      * destruct (sapp_inv _ _ _ _ Hl Heq) as [<- <-]. rewrite Hm.
        left. eexists. split; [left; reflexivity|]. reflexivity.
      * destruct (match_here r (last_char None pre) (String c s))
          as [st1|] eqn:E; [|apply Hrec; lia].
        set (len := String.length (String c s) - String.length (rest st1)).
        clearbody len.
        destruct (le_lt_dec (String.length pre + len) (String.length before))
          as [Hfar|Hnear].
        -- assert (Hk : S (String.length pre) + (len - 1)
                         <= String.length before) by lia.
           destruct (Hrec (len - 1) Hk) as [[m [Hin H1]]|[m [Hin H1]]].
           ++ left. exists m. split; [right; exact Hin|exact H1].
           ++ right. exists m. split; [right; exact Hin|exact H1].
        -- right. eexists. split; [left; reflexivity|]. cbn. lia.
    + assert (Hk : S (String.length pre) + k <= String.length before) by lia.
      destruct (Hrec k Hk) as [H|H]; [left; exact H|right; exact H].
Qed.

Lemma scan_in_order (s : string) :
  forall (p : option ascii) (pos skip : nat),
    in_order (pos + skip) (scan r p s pos skip).
Proof.
  induction s as [|c s IH]; intros p pos skip.
  - destruct skip; cbn; [|exact I].
    destruct (match_here r p ""); cbn; [lia|exact I].
  - destruct skip as [|k]; cbn [scan].
    + destruct (match_here r p (String c s)) as [st1|].
      * cbn [in_order m_start m_end]. split; [lia|]. split; [lia|].
        set (len := String.length (String c s) - String.length (rest st1)).
        clearbody len.
        replace (Nat.max (pos + len) (S pos)) with (S pos + (len - 1)) by lia.
        apply IH.
      * replace (pos + 0) with (S pos + 0 - 1) by lia.
        specialize (IH (Some c) (S pos) 0).
        destruct (scan r (Some c) s (S pos) 0); cbn in *; [exact I|].
        intuition lia.
    + replace (pos + S k) with (S pos + k) by lia. apply IH.
Qed.

End Scan.

Lemma finditer_sound (r : regex) (text : string) (m : match_obj) :
  In m (finditer r text) ->
  m_start m <= String.length text /\
  exists st' : mstate,
    match_at r text (m_start m) = Some st' /\
    m_groups m = caps st' /\
    m_end m = m_start m + (String.length (drop (m_start m) text)
                           - String.length (rest st')).
Proof.
  intros Hin. apply (scan_sound r text "" 0 m) in Hin.
  destruct Hin as (before & s' & st' & Heq & Hs & Hm & Hg & He).
  cbn in Heq. subst text. rewrite Hs. split.
  - rewrite slength_app. lia.
  - exists st'. unfold match_at, char_before.
    rewrite take_app, drop_app. auto.
Qed.

Lemma finditer_complete (r : regex) (text : string) (pos : nat) :
  occurs r text pos = true ->
  (exists m, In m (finditer r text) /\ m_start m = pos) \/
  (exists m, In m (finditer r text) /\ m_start m < pos /\ pos < m_end m).
Proof.
  unfold occurs, match_at, char_before. intros H.
  apply andb_prop in H. destruct H as [Hle Hm]. apply Nat.leb_le in Hle.
  destruct (match_here r (last_char None (take pos text)) (drop pos text))
    as [st'|] eqn:E; [|discriminate].
  pose proof (scan_complete r text "" 0 (take pos text) (drop pos text) st')
    as Hc.
  rewrite take_length in Hc by exact Hle. cbn in Hc.
  apply Hc; [symmetry; apply take_drop|lia|exact E].
Qed.

(** ** The matcher, construct by construct *)

Lemma step_refl (st : mstate) : step "" [] st st.
Proof. split; reflexivity. Qed.

Lemma step_trans (w1 w2 : string) (g1 g2 : list (nat * string))
    (a b c : mstate) :
  step w1 g1 a b -> step w2 g2 b c -> step (w1 ++ w2) (g2 ++ g1) a c.
Proof.
  intros [H1 G1] [H2 G2]. split.
  - rewrite H1, H2, sapp_assoc. reflexivity.
  - rewrite G2, G1, app_assoc. reflexivity.
Qed.

Lemma in_seq (a b : regex) (st st' : mstate) :
  In st' (run_re (a >> b) st) ->
  exists mid, In mid (run_re a st) /\ In st' (run_re b mid).
Proof. cbn. rewrite in_flat_map. auto. Qed.

Lemma in_alt (a b : regex) (st st' : mstate) :
  In st' (run_re (Alt a b) st) ->
  In st' (run_re a st) \/ In st' (run_re b st).
Proof. cbn. apply in_app_or. Qed.

Lemma in_opt (a : regex) (st st' : mstate) :
  In st' (run_re (Opt a) st) -> In st' (run_re a st) \/ st' = st.
Proof.
  cbn. intros H. apply in_app_or in H. destruct H as [H|[H|[]]]; auto.
Qed.

Lemma in_lit (l : string) (st st' : mstate) :
  In st' (run_re (Lit l) st) -> step l [] st st'.
Proof.
  cbn. destruct (strip l (rest st)) as [s'|] eqn:E; [|contradiction].
  intros [<-|[]]. split; [apply strip_app; exact E|reflexivity].
Qed.

Lemma in_star (cs : cset) (st st' : mstate) :
  In st' (run_re (Star cs) st) ->
  exists w, all_in cs w = true /\ step w [] st st'.
Proof.
  cbn. destruct st as [p s g]. cbn. revert p.
  induction s as [|c s IH]; intros p H; cbn in H.
  - destruct H as [<-|[]]. exists "". split; [reflexivity|apply step_refl].
  - destruct (in_cset c cs) eqn:E.
    + apply in_app_or in H. destruct H as [H|[<-|[]]].
      * destruct (IH _ H) as (w & Hw & Hr & Hc). cbn in Hr, Hc.
        exists (String c w). cbn. rewrite E, Hw. repeat split; cbn; congruence.
      * exists "". split; [reflexivity|apply step_refl].
    + destruct H as [<-|[]]. exists "". split; [reflexivity|apply step_refl].
Qed.

Lemma in_plus (cs : cset) (st st' : mstate) :
  In st' (run_re (Plus cs) st) ->
  exists w, w <> "" /\ all_in cs w = true /\ step w [] st st'.
Proof.
  intros H. apply in_seq in H. destruct H as (mid & Hc & Hs).
  apply in_star in Hs. destruct Hs as (w & Hw & Hr & Hg).
  cbn in Hc. destruct (rest st) as [|c s] eqn:Er; [contradiction|].
  destruct (in_cset c cs) eqn:E; [|contradiction].
  destruct Hc as [<-|[]]. cbn in Hr, Hg.
  exists (String c w). cbn. rewrite E, Hw.
  repeat split; [discriminate|cbn; rewrite Er; congruence|cbn; congruence].
Qed.

Lemma in_not_behind (cs : cset) (st st' : mstate) :
  In st' (run_re (NotBehind cs) st) ->
  st' = st /\ forall c, prev st = Some c -> in_cset c cs = false.
Proof.
  cbn. destruct (prev st) as [c|].
  - destruct (in_cset c cs) eqn:E; [contradiction|].
    intros [<-|[]]. split; [reflexivity|]. intros c' [= <-]. exact E.
  - intros [<-|[]]. split; [reflexivity|discriminate].
Qed.

Lemma in_word_b (st st' : mstate) : In st' (run_re WordB st) -> st' = st.
Proof.
  cbn. destruct (xorb _ _); [|contradiction]. intros [<-|[]]. reflexivity.
Qed.

Lemma consumed_step (w : string) (g : list (nat * string)) (st st' : mstate) :
  step w g st st' -> consumed st st' = w.
Proof.
  intros [Hr _]. unfold consumed. rewrite Hr, slength_app.
  replace (String.length w + String.length (rest st')
           - String.length (rest st')) with (String.length w) by lia.
  apply take_app.
Qed.

Lemma in_group (n : nat) (a : regex) (st st' : mstate) (w : string) :
  (forall x, In x (run_re a st) -> step w [] st x) ->
  In st' (run_re (Group n a) st) -> step w [(n, w)] st st'.
Proof.
  intros Ha. cbn. rewrite in_map_iff. intros (x & <- & Hx).
  pose proof (Ha x Hx) as Hs. unfold set_group, step. cbn.
  rewrite (consumed_step _ _ _ _ Hs). destruct Hs as [Hr Hg].
  split; [exact Hr|]. rewrite Hg. reflexivity.
Qed.

Lemma in_group_ex (n : nat) (a : regex) (st st' : mstate)
    (P : string -> Prop) :
  (forall x, In x (run_re a st) -> exists w, P w /\ step w [] st x) ->
  In st' (run_re (Group n a) st) ->
  exists w, P w /\ step w [(n, w)] st st'.
Proof.
  intros Ha. cbn. rewrite in_map_iff. intros (x & <- & Hx).
  destruct (Ha x Hx) as (w & Hp & Hs). exists w. split; [exact Hp|].
  unfold set_group, step. cbn.
  rewrite (consumed_step _ _ _ _ Hs). destruct Hs as [Hr Hg].
  split; [exact Hr|]. rewrite Hg. reflexivity.
Qed.

(** ** The shape of a port declaration *)

Lemma in_storage (st st' : mstate) :
  In st' (run_re (Opt (Group 2 (Alt (Lit "wire" >> WordB)
                                    (Lit "reg" >> WordB)))) st) ->
  exists ty g,
    step ty g st st' /\
    ((ty = "" /\ g = []) \/ ((ty = "wire" \/ ty = "reg") /\ g = [(2, ty)])).
Proof.
  intros H. apply in_opt in H. destruct H as [H| ->].
  - apply (in_group_ex 2 _ _ _ (fun w => w = "wire" \/ w = "reg")) in H.
    + destruct H as (w & Hw & Hs). exists w, [(2, w)]. auto.
    + intros x Hx. apply in_alt in Hx.
      destruct Hx as [Hx|Hx]; apply in_seq in Hx;
        destruct Hx as (mid & Hl & Hb); apply in_word_b in Hb; subst x;
        apply in_lit in Hl; eauto.
  - exists "", []. split; [apply step_refl|auto].
Qed.

Lemma in_enclosed (l1 l2 : string) (cs : cset) (st st' : mstate) :
  In st' (run_re (Lit l1 >> Plus cs >> Lit l2) st) ->
  exists x, x <> "" /\ all_in cs x = true /\
            step (l1 ++ x ++ l2) [] st st'.
Proof.
  intros H. apply in_seq in H. destruct H as (a & H1 & H).
  apply in_seq in H. destruct H as (b & H2 & H3).
  apply in_lit in H1. apply in_lit in H3.
  apply in_plus in H2. destruct H2 as (x & Hn & Hx & H2).
  exists x. split; [exact Hn|]. split; [exact Hx|].
  exact (step_trans _ _ _ _ _ _ _ H1 (step_trans _ _ _ _ _ _ _ H2 H3)).
Qed.

Lemma in_dimension (st st' : mstate) :
  In st' (run_re dimension st) ->
  exists d, bracket_expr d /\ step d [] st st'.
Proof.
  unfold dimension, bracket. intros H. apply in_alt in H.
  destruct H as [H|H]; [|apply in_alt in H; destruct H as [H|H]];
    apply in_enclosed in H; destruct H as (x & Hn & Hx & Hs);
    eexists; (split; [|exact Hs]); unfold bracket_expr; eauto 6.
Qed.

Lemma in_opt_dimension (n : nat) (st st' : mstate) :
  In st' (run_re (Opt (Group n dimension)) st) ->
  exists d g,
    step d g st st' /\
    ((d = "" /\ g = []) \/ (bracket_expr d /\ g = [(n, d)])).
Proof.
  intros H. apply in_opt in H. destruct H as [H| ->].
  - apply (in_group_ex n _ _ _ bracket_expr) in H.
    + destruct H as (d & Hd & Hs). exists d, [(n, d)]. auto.
    + intros x. apply in_dimension.
  - exists "", []. split; [apply step_refl|auto].
Qed.

Lemma in_opt_comma (st st' : mstate) :
  In st' (run_re (Opt (Lit ",")) st) ->
  exists c, (c = "" \/ c = ",") /\ step c [] st st'.
Proof.
  intros H. apply in_opt in H. destruct H as [H| ->].
  - apply in_lit in H. eauto.
  - exists "". split; [auto|apply step_refl].
Qed.

(** The next part of a sequence: the state [x] after it and the fact [Hx]
    about it. *)
Ltac next_part H x Hx :=
  apply in_seq in H; destruct H as (x & Hx & H).

Lemma port_shape (kw : string) (st st' : mstate) :
  caps st = [] ->
  In st' (run_re (portPattern kw) st) ->
  declaration kw (rest st)
    (group 1 (caps st'), group 2 (caps st'), group 3 (caps st'),
     group 4 (caps st'), group 5 (caps st'))
    (rest st').
Proof.
  intros Hc H. unfold portPattern in H.
  next_part H s1 H0. apply in_not_behind in H0. destruct H0 as [-> _].
  next_part H s2 H1.
  apply (in_group 1 _ _ _ kw) in H1; [|intros x; apply in_lit].
  next_part H s3 H2. apply in_plus in H2.
  destruct H2 as (w1 & Hn1 & Hw1 & H2).
  next_part H s4 H3. apply in_storage in H3.
  destruct H3 as (ty & g2 & H3 & Hty).
  next_part H s5 H4. apply in_star in H4. destruct H4 as (w2 & Hw2 & H4).
  next_part H s6 H5. apply in_opt_dimension in H5.
  destruct H5 as (dA & g3 & H5 & HdA).
  next_part H s7 H6. apply in_star in H6. destruct H6 as (w3 & Hw3 & H6).
  next_part H s8 H7. apply in_opt_dimension in H7.
  destruct H7 as (dB & g4 & H7 & HdB).
  next_part H s9 H8. apply in_star in H8. destruct H8 as (w4 & Hw4 & H8).
  next_part H s10 H9.
  apply (in_group_ex 5 _ _ _
           (fun w => w <> "" /\ all_in port_name w = true)) in H9;
    [|intros x Hx; apply in_plus in Hx;
      destruct Hx as (w & ? & ? & ?); eauto].
  destruct H9 as (nm & [Hnn Hnm] & H9).
  next_part H s11 H10. apply in_star in H10.
  destruct H10 as (w5 & Hw5 & H10).
  apply in_opt_comma in H. destruct H as (c & Hcm & H11).
  pose proof
    (step_trans _ _ _ _ _ _ _ H1 (step_trans _ _ _ _ _ _ _ H2
    (step_trans _ _ _ _ _ _ _ H3 (step_trans _ _ _ _ _ _ _ H4
    (step_trans _ _ _ _ _ _ _ H5 (step_trans _ _ _ _ _ _ _ H6
    (step_trans _ _ _ _ _ _ _ H7 (step_trans _ _ _ _ _ _ _ H8
    (step_trans _ _ _ _ _ _ _ H9 (step_trans _ _ _ _ _ _ _ H10 H11))))))))))
    as [Hr Hg].
  rewrite Hc in Hg.
  (* each optional group either took part or left no entry *)
  destruct Hty as [[-> ->]|[Hty ->]], HdA as [[-> ->]|[HdA ->]],
    HdB as [[-> ->]|[HdB ->]];
    cbn [app] in Hg; rewrite Hg, Hr; unfold group; cbn [assoc Nat.eqb];
    exists w1, w2, w3, w4, w5, c;
    (split; [rewrite !sapp_assoc; reflexivity|]);
    unfold storage_class, blank; intuition auto.
Qed.

Lemma in_name_group5 (st st' : mstate) :
  In st' (run_re (Group 5 (Plus port_name)) st) ->
  exists nm, step nm [(5, nm)] st st'.
Proof.
  intros H.
  apply (in_group_ex 5 _ _ _ (fun _ => True)) in H.
  - destruct H as (nm & _ & H). eauto.
  - intros x Hx. apply in_plus in Hx. destruct Hx as (w & _ & _ & Hs). eauto.
Qed.

(** ** The word boundary after a storage class *)

Lemma in_lit_prev (l : string) (st st' : mstate) :
  In st' (run_re (Lit l) st) -> prev st' = last_char (prev st) l.
Proof.
  cbn. destruct (strip l (rest st)); [|contradiction].
  intros [<-|[]]. reflexivity.
Qed.

Lemma in_word_b_cond (st st' : mstate) :
  In st' (run_re WordB st) ->
  st' = st /\
  xorb (word_at (prev st)) (word_at (next_char (rest st))) = true.
Proof.
  cbn. destruct (xorb _ _); [|contradiction]. intros [<-|[]]. auto.
Qed.

Lemma word_at_next (s : string) :
  word_at (next_char s) = false -> word_ends s = true.
Proof. destruct s as [|c s]; cbn; [reflexivity|]. intros ->. reflexivity. Qed.

Lemma in_keyword_boundary (l : string) (st st' : mstate) :
  (forall p, word_at (last_char p l) = true) ->
  In st' (run_re (Lit l >> WordB) st) ->
  step l [] st st' /\ word_ends (rest st') = true.
Proof.
  intros Hl H. next_part H mid H1.
  pose proof (in_lit_prev _ _ _ H1) as Hp. apply in_lit in H1.
  apply in_word_b_cond in H. destruct H as [-> Hx].
  rewrite Hp, Hl in Hx. cbn in Hx.
  split; [exact H1|]. apply word_at_next.
  destruct (word_at (next_char (rest mid))); [discriminate|reflexivity].
Qed.

Lemma in_storage_boundary (st st' : mstate) :
  In st' (run_re (Opt (Group 2 (Alt (Lit "wire" >> WordB)
                                    (Lit "reg" >> WordB)))) st) ->
  exists ty g,
    step ty g st st' /\
    ((ty = "" /\ g = []) \/
     ((ty = "wire" \/ ty = "reg") /\ g = [(2, ty)] /\
      word_ends (rest st') = true)).
Proof.
  intros H. apply in_opt in H. destruct H as [H| ->].
  - cbn [run_re] in H. apply in_map_iff in H. destruct H as (x & <- & Hx).
    assert (Hs : exists ty, (ty = "wire" \/ ty = "reg") /\
                            step ty [] st x /\ word_ends (rest x) = true).
    { apply in_app_or in Hx. destruct Hx as [Hx|Hx];
        apply in_keyword_boundary in Hx;
        try (intros p; reflexivity); destruct Hx; eauto. }
    destruct Hs as (ty & Hty & Hs & Hw). exists ty, [(2, ty)].
    split; [|right; auto].
    unfold set_group, step. cbn.
    rewrite (consumed_step _ _ _ _ Hs). destruct Hs as [Hr Hg].
    split; [exact Hr|]. rewrite Hg. reflexivity.
  - exists "", []. split; [apply step_refl|auto].
Qed.

(** The storage class a match captures is followed by the end of a word. *)
Lemma port_keyword_boundary (kw : string) (st st' : mstate) :
  caps st = [] ->
  In st' (run_re (portPattern kw) st) ->
  exists w1 after,
    rest st = (kw ++ w1 ++ group 2 (caps st') ++ after)%string /\
    blank w1 = true /\
    (group 2 (caps st') = "" \/
     ((group 2 (caps st') = "wire" \/ group 2 (caps st') = "reg") /\
      word_ends after = true)).
Proof.
  intros Hc H. unfold portPattern in H.
  next_part H s1 H0. apply in_not_behind in H0. destruct H0 as [-> _].
  next_part H s2 H1.
  apply (in_group 1 _ _ _ kw) in H1; [|intros x; apply in_lit].
  next_part H s3 H2. apply in_plus in H2.
  destruct H2 as (w1 & Hn1 & Hw1 & H2).
  next_part H s4 H3. apply in_storage_boundary in H3.
  destruct H3 as (ty & g2 & H3 & Hty).
  next_part H s5 H4. apply in_star in H4. destruct H4 as (w2 & Hw2 & H4).
  next_part H s6 H5. apply in_opt_dimension in H5.
  destruct H5 as (dA & g3 & H5 & HdA).
  next_part H s7 H6. apply in_star in H6. destruct H6 as (w3 & Hw3 & H6).
  next_part H s8 H7. apply in_opt_dimension in H7.
  destruct H7 as (dB & g4 & H7 & HdB).
  next_part H s9 H8. apply in_star in H8. destruct H8 as (w4 & Hw4 & H8).
  next_part H s10 H9. apply in_name_group5 in H9.
  destruct H9 as (nm & H9).
  next_part H s11 H10. apply in_star in H10.
  destruct H10 as (w5 & Hw5 & H10).
  apply in_opt_comma in H. destruct H as (c & Hcm & H11).
  pose proof (step_trans _ _ _ _ _ _ _ H1 (step_trans _ _ _ _ _ _ _ H2 H3))
    as [Hfront Gfront].
  pose proof
    (step_trans _ _ _ _ _ _ _ H4 (step_trans _ _ _ _ _ _ _ H5
    (step_trans _ _ _ _ _ _ _ H6 (step_trans _ _ _ _ _ _ _ H7
    (step_trans _ _ _ _ _ _ _ H8 (step_trans _ _ _ _ _ _ _ H9
    (step_trans _ _ _ _ _ _ _ H10 H11)))))))
    as [_ Gback].
  rewrite Gfront, Hc in Gback. rewrite !sapp_assoc in Hfront.
  exists w1, (rest s4).
  destruct Hty as [[-> ->]|(Hty & -> & Hb)],
    HdA as [[-> ->]|[HdA ->]], HdB as [[-> ->]|[HdB ->]];
    cbn [app] in Gback; rewrite Gback; unfold group; cbn [assoc Nat.eqb];
    (split; [exact Hfront|]); (split; [exact Hw1|]); auto.
Qed.

(** ** The lookbehind *)

Lemma lookbehind_blocks (cs : cset) (r' : regex) (c : ascii) (s : string) :
  in_cset c cs = true ->
  match_here (NotBehind cs >> r') (Some c) s = None.
Proof. intros H. unfold match_here. cbn. rewrite H. reflexivity. Qed.

Lemma hd_error_In {A} (l : list A) (a : A) : hd_error l = Some a -> In a l.
Proof. destruct l; cbn; [discriminate|]. intros [= ->]. auto. Qed.

(** ** From a dictionary entry back to the text *)

Lemma port_origin (kw text k : string) (v : port_info) :
  dict_get k (build (findall5 (portPattern kw) text)) = Some v ->
  exists m, last_match kw text k m /\
            group 5 (m_groups m) = k /\ v = info5 (groups5 m).
Proof.
  rewrite dict_get_build.
  destruct (last_named k (findall5 (portPattern kw) text)) as [t|] eqn:E;
    [|discriminate].
  cbn. intros [= <-]. pose proof (last_named_In _ _ _ E) as [Hin Hk].
  unfold findall5 in Hin. apply in_map_iff in Hin.
  destruct Hin as (m & <- & Hm). exists m. unfold last_match. auto.
Qed.

Lemma match_declaration (kw text : string) (m : match_obj) :
  In m (finditer (portPattern kw) text) ->
  exists tail, declaration kw (drop (m_start m) text) (groups5 m) tail.
Proof.
  intros Hin. apply finditer_sound in Hin.
  destruct Hin as (_ & st' & Hm & Hg & _).
  unfold match_at, match_here in Hm. apply hd_error_In in Hm.
  apply port_shape in Hm; [|reflexivity]. cbn [rest] in Hm.
  exists (rest st'). unfold groups5. rewrite Hg. exact Hm.
Qed.

(** ** The storage-class keyword *)

Lemma skip_blank_app (w y : string) :
  blank w = true -> skip_blank (w ++ y) = skip_blank y.
Proof.
  unfold blank. induction w as [|c w IH]; cbn; [reflexivity|].
  intros H. apply andb_prop in H. destruct H as [Hc Hw].
  rewrite orb_false_r in Hc. rewrite Hc. auto.
Qed.

Lemma drop_add (a b : nat) (s : string) : drop (a + b) s = drop b (drop a s).
Proof.
  revert s. induction a as [|a IH]; intros s; cbn; [reflexivity|].
  destruct s as [|c s]; [destruct b; reflexivity|apply IH].
Qed.

Lemma keyword_follows_blank (w y : string) :
  blank w = true -> keyword_follows (w ++ y) = keyword_follows y.
Proof.
  intros H. unfold keyword_follows. rewrite skip_blank_app by exact H.
  reflexivity.
Qed.

Lemma keyword_follows_word (g2 x : string) :
  g2 = "wire" \/ g2 = "reg" ->
  word_ends x = true -> keyword_follows (g2 ++ x) = true.
Proof.
  intros [-> | ->] Hx.
  - change (keyword_follows ("wire" ++ x)) with (word_ends x || false).
    rewrite Hx. reflexivity.
  - change (keyword_follows ("reg" ++ x)) with (word_ends x). exact Hx.
Qed.

(** ** Order and count of the matches *)

Lemma in_order_above (ms : list match_obj) :
  forall lo pos, in_order lo ms -> pos < lo -> count_at pos ms = 0.
Proof.
  unfold count_at.
  induction ms as [|m ms IH]; intros lo pos H Hlt; cbn in *; [reflexivity|].
  destruct H as (H1 & H2 & H3).
  destruct (Nat.eqb_spec (m_start m) pos) as [E|E]; [lia|].
  apply (IH _ _ H3). lia.
Qed.

Lemma in_order_once (ms : list match_obj) :
  forall lo pos, in_order lo ms -> count_at pos ms <= 1.
Proof.
  induction ms as [|m ms IH]; intros lo pos H; [cbn; lia|].
  destruct H as (H1 & H2 & H3). unfold count_at in *. cbn.
  destruct (Nat.eqb_spec (m_start m) pos) as [E|E].
  - cbn. pose proof (in_order_above ms _ pos H3) as H0.
    unfold count_at in H0. rewrite H0; lia.
  - eapply IH. exact H3.
Qed.

Lemma count_at_In (ms : list match_obj) (m : match_obj) :
  In m ms -> 1 <= count_at (m_start m) ms.
Proof.
  unfold count_at. intros H.
  assert (Hf : In m (filter (fun m' => m_start m' =? m_start m) ms)).
  { apply filter_In. split; [exact H|apply Nat.eqb_refl]. }
  destruct (filter _ ms); [contradiction|cbn; lia].
Qed.

(** ** No pattern of the script matches the empty string *)

Lemma run_re_reads (r : regex) :
  forall st st', In st' (run_re r st) ->
                 exists w, rest st = (w ++ rest st')%string.
Proof.
  induction r as [l|cs|cs|a IHa b IHb|a IHa b IHb|a IHa|n a IHa|cs|];
    intros st st' H.
  - apply in_lit in H. destruct H as [H _]. eauto.
  - cbn in H. destruct (rest st) as [|c s] eqn:E; [contradiction|].
    destruct (in_cset c cs); [|contradiction].
    destruct H as [<-|[]]. exists (String c ""). reflexivity.
  - apply in_star in H. destruct H as (w & _ & H & _). eauto.
  - apply in_seq in H. destruct H as (mid & H1 & H2).
    destruct (IHa _ _ H1) as (w1 & E1). destruct (IHb _ _ H2) as (w2 & E2).
    exists (w1 ++ w2)%string. rewrite E1, E2, sapp_assoc. reflexivity.
  - apply in_alt in H. destruct H as [H|H]; eauto.
  - apply in_opt in H. destruct H as [H| ->]; [eauto|].
    exists "". reflexivity.
  - cbn in H. apply in_map_iff in H. destruct H as (x & <- & Hx).
    cbn. eauto.
  - apply in_not_behind in H. destruct H as [-> _]. exists "". reflexivity.
  - apply in_word_b in H. subst. exists "". reflexivity.
Qed.

Lemma keyword_is_read (cs : cset) (x r' : regex) (l : string)
    (st st' : mstate) :
  (forall a b, In b (run_re x a) -> exists g, step l g a b) ->
  In st' (run_re (NotBehind cs >> x >> r') st) ->
  String.length (rest st') + String.length l <= String.length (rest st).
Proof.
  intros Hx H. apply in_seq in H. destruct H as (s0 & H0 & H).
  apply in_not_behind in H0. destruct H0 as [-> _].
  apply in_seq in H. destruct H as (mid & H1 & H2).
  destruct (Hx _ _ H1) as (g & E1 & _).
  destruct (run_re_reads _ _ _ H2) as (w & E2).
  rewrite E1, E2, !slength_app. lia.
Qed.

Lemma matches_not_empty (text : string) (m : match_obj) :
  In m (finditer moduleNamePattern text) \/
  In m (finditer moduleParamsPattern text) \/
  In m (finditer moduleInputsPattern text) \/
  In m (finditer moduleOutputsPattern text) ->
  m_start m < m_end m.
Proof.
  assert (Hlit : forall l a b, In b (run_re (Lit l) a) ->
                               exists g, step l g a b).
  { intros l a b H. apply in_lit in H. eauto. }
  assert (Hgrp : forall l a b, In b (run_re (Group 1 (Lit l)) a) ->
                               exists g, step l g a b).
  { intros l a b H. apply (in_group 1 _ _ _ l) in H; [eauto|].
    intros x. apply in_lit. }
  assert (Hgen : forall cs x r' l,
             (forall a b, In b (run_re x a) -> exists g, step l g a b) ->
             0 < String.length l ->
             In m (finditer (NotBehind cs >> x >> r') text) ->
             m_start m < m_end m).
  { intros cs x r' l Hx Hl Hm. apply finditer_sound in Hm.
    destruct Hm as (_ & st' & Ha & _ & ->).
    unfold match_at, match_here in Ha. apply hd_error_In in Ha.
    apply (keyword_is_read cs x r' l) in Ha; [|exact Hx]. cbn [rest] in Ha.
    lia. }
  intros [H|[H|[H|H]]]; revert H.
  - apply (Hgen _ _ _ "module"); [apply Hlit|cbn; lia].
  - apply (Hgen _ _ _ "parameter"); [apply Hlit|cbn; lia].
  - apply (Hgen _ _ _ "input"); [apply Hgrp|cbn; lia].
  - apply (Hgen _ _ _ "output"); [apply Hgrp|cbn; lia].
Qed.

(** * The claims *)

(** C1: module-name resolution is exact-one-or-abort.  When the module-name
    rule has exactly one match, the name stage returns that identifier
    without printing anything and the script goes on to the ports with it;
    with no match or several, the script prints moduleNameNotIdentified and
    exits: there is no record and no report file. *)
Theorem module_name_exactly_one_or_abort (text : string) :
  (forall moduleName : string,
      findall1 moduleNamePattern text = [moduleName] ->
      forall w : world,
        extract_module_name text w = (w, Ok moduleName) /\
        extract text w
        = extract_outcome [moduleName]
            (findall5 moduleInputsPattern text)
            (findall5 moduleOutputsPattern text) w /\
        (forall w' io, extract text w = (w', Ok io) ->
                       fst (fst io) = moduleName)) /\
  (List.length (findall1 moduleNamePattern text) <> 1 ->
   (forall w : world,
       extract text w
       = (World (printed w ++ [moduleNameNotIdentified]) (report w),
          Raise SystemExit)) /\
   run text = (World [moduleNameNotIdentified] None, Raise SystemExit)).
Proof.
  split.
  - intros moduleName Hm w. split; [|split].
    + rewrite extract_module_name_spec, Hm. reflexivity.
    + rewrite extract_spec, Hm. reflexivity.
    + intros w' [[n ins] outs] H. apply extract_ok_inv in H.
      destruct H as (_ & Hn & _). cbn. congruence.
  - intros Hlen.
    assert (He : forall w, extract text w
                 = (World (printed w ++ [moduleNameNotIdentified]) (report w),
                    Raise SystemExit)).
    { intros w. rewrite extract_spec. unfold extract_outcome.
      destruct (findall1 moduleNamePattern text) as [|n [|n' l]];
        [reflexivity|cbn in Hlen; lia|reflexivity]. }
    split; [exact He|]. unfold run. rewrite main_spec, He. reflexivity.
Qed.

Lemma module_name_exactly_one_or_abort_witness :
  (findall1 moduleNamePattern canonical_lines = ["foo"] /\
   extract_module_name canonical_lines (World [] None)
   = (World [] None, Ok "foo")) /\
  (findall1 moduleNamePattern two_modules = ["a"; "b"] /\
   run two_modules = (World [moduleNameNotIdentified] None, Raise SystemExit)) /\
  (findall1 moduleNamePattern "" = [] /\
   run "" = (World [moduleNameNotIdentified] None, Raise SystemExit)).
Proof.
  split; [|split].
  - split; [vm_compute; reflexivity|].
    apply (proj1 (module_name_exactly_one_or_abort canonical_lines) "foo").
    vm_compute; reflexivity.
  - split; [vm_compute; reflexivity|].
    apply (proj2 (module_name_exactly_one_or_abort two_modules)).
    vm_compute. discriminate.
  - split; [vm_compute; reflexivity|].
    apply (proj2 (module_name_exactly_one_or_abort "")).
    vm_compute. discriminate.
Defined.

(** C2 as stated fails: in the header as the specification writes it, the
    second [input] and the [output] follow a space, so the input rule finds
    only [a], the output rule finds nothing and no dictionary is formed. *)
Lemma canonical_header_space_separated :
  findall5 moduleInputsPattern canonical = [("input", "", "", "", "a")] /\
  findall5 moduleOutputsPattern canonical = [] /\
  run canonical
  = (World [noOutputsIdentified] None, Raise (NameError "numOutputs")).
Proof. repeat split; vm_compute; reflexivity. Qed.

(** C2, amended: with every port on a line of its own the header yields the
    inputs [a] (scalar, no storage class) and [b] ([[7:0]], no storage class)
    and the output [busy] (scalar, [reg]), in that order; written with
    [", "] between the ports, only [a] is matched as an input and nothing as
    an output. *)
Theorem canonical_header_by_lines (w : world) :
  extract canonical_lines w
  = (w, Ok ("foo",
            [("a", PortInfo "" ""); ("b", PortInfo "" "[7:0]")],
            [("busy", PortInfo "reg" "")])) /\
  findall5 moduleInputsPattern canonical = [("input", "", "", "", "a")] /\
  findall5 moduleOutputsPattern canonical = [].
Proof.
  split; [|split; vm_compute; reflexivity].
  rewrite extract_spec.
  replace (findall1 moduleNamePattern canonical_lines) with ["foo"]
    by (vm_compute; reflexivity).
  replace (findall5 moduleInputsPattern canonical_lines)
    with [("input", "", "", "", "a"); ("input", "", "[7:0]", "", "b")]
    by (vm_compute; reflexivity).
  replace (findall5 moduleOutputsPattern canonical_lines)
    with [("output", "reg", "", "", "busy")]
    by (vm_compute; reflexivity).
  reflexivity.
Qed.

(** C3: an empty port list is meant to be advisory, but it stops the script.
    With a module name and no input match the script prints
    noInputsIdentified and then reads [numInputs], which was never assigned;
    with input matches and no output match it prints noOutputsIdentified and
    fails on [numOutputs].  Either way there is no record and no report. *)
Theorem empty_port_list_raises (text moduleName : string) (w : world) :
  findall1 moduleNamePattern text = [moduleName] ->
  (findall5 moduleInputsPattern text = [] ->
   exists w',
     main text w = (w', Raise (NameError "numInputs")) /\
     extract text w = (w', Raise (NameError "numInputs")) /\
     In noInputsIdentified (printed w') /\ report w' = report w) /\
  (findall5 moduleInputsPattern text <> [] ->
   findall5 moduleOutputsPattern text = [] ->
   main text w
   = (World (printed w ++ [noOutputsIdentified]) (report w),
      Raise (NameError "numOutputs")) /\
   extract text w
   = (World (printed w ++ [noOutputsIdentified]) (report w),
      Raise (NameError "numOutputs"))).
Proof.
  intros Hn. split.
  - intros Hi.
    assert (He : exists w', extract text w = (w', Raise (NameError "numInputs"))
                            /\ In noInputsIdentified (printed w')
                            /\ report w' = report w).
    { rewrite extract_spec, Hn, Hi. unfold extract_outcome.
      destruct (findall5 moduleOutputsPattern text); eexists;
        (split; [reflexivity|]); cbn; rewrite in_app_iff; cbn; auto. }
    destruct He as (w' & He & Hp & Hr). exists w'.
    rewrite main_spec, He. auto.
  - intros Hi Ho.
    assert (He : extract text w
                 = (World (printed w ++ [noOutputsIdentified]) (report w),
                    Raise (NameError "numOutputs"))).
    { rewrite extract_spec, Hn, Ho. unfold extract_outcome.
      destruct (findall5 moduleInputsPattern text); [congruence|reflexivity]. }
    rewrite main_spec, He. auto.
Qed.

Lemma empty_port_list_raises_witness :
  findall1 moduleNamePattern output_only = ["m"] /\
  findall5 moduleInputsPattern output_only = [] /\
  exists w',
    main output_only (World [] None)
    = (w', Raise (NameError "numInputs")) /\
    extract output_only (World [] None)
    = (w', Raise (NameError "numInputs")) /\
    In noInputsIdentified (printed w') /\ report w' = None.
Proof.
  split; [vm_compute; reflexivity|]. split; [vm_compute; reflexivity|].
  destruct (empty_port_list_raises output_only "m" (World [] None))
    as [H _]; [vm_compute; reflexivity|].
  apply H. vm_compute; reflexivity.
Defined.

Lemma build_merged (l : list tuple5) : merged l (build l).
Proof.
  split; [apply keys_build|]. split; [intros k; apply dict_get_build|].
  intros t Ht. apply one_entry.
  - rewrite keys_build. apply uniq_NoDup.
  - rewrite keys_build. apply uniq_In. apply in_map. exact Ht.
Qed.

(** C4: a name declared several times under one direction has exactly one
    entry, with the fields of its last declaration, and the entries stand in
    the order the names are first seen: a later duplicate changes the value
    where it stands. *)
Theorem duplicates_last_wins_in_place (text : string) (w w' : world)
    (moduleName : string) (ins outs : dict) :
  extract text w = (w', Ok (moduleName, ins, outs)) ->
  merged (findall5 moduleInputsPattern text) ins /\
  merged (findall5 moduleOutputsPattern text) outs.
Proof.
  intros H. apply extract_ok_inv in H.
  destruct H as (_ & _ & _ & _ & -> & ->). split; apply build_merged.
Qed.

Lemma duplicates_last_wins_in_place_witness :
  extract twice_declared (World [] None)
  = (World [] None,
     Ok ("m",
         [("a", PortInfo "reg" "[1:0][7:0]"); ("b", PortInfo "" "[3:0]")],
         [("y", PortInfo "" "")])) /\
  merged (findall5 moduleInputsPattern twice_declared)
         [("a", PortInfo "reg" "[1:0][7:0]"); ("b", PortInfo "" "[3:0]")] /\
  merged (findall5 moduleOutputsPattern twice_declared)
         [("y", PortInfo "" "")].
Proof.
  split; [vm_compute; reflexivity|].
  apply (duplicates_last_wins_in_place twice_declared (World [] None)
           (World [] None) "m").
  vm_compute; reflexivity.
Defined.

Lemma build_dimension (kw text : string) :
  dimension_from_captures kw text (build (findall5 (portPattern kw) text)).
Proof.
  intros k v H. apply port_origin in H. destruct H as (m & Hl & _ & ->).
  destruct (match_declaration kw text m (proj1 Hl)) as (tail & Hd).
  exists m, tail. split; [exact Hl|]. split; [exact Hd|].
  unfold groups5, info5. cbn [signalDimension].
  split; [reflexivity|]. intros -> ->. reflexivity.
Qed.

(** C5: the dimension of every extracted port is the first captured bracket
    expression followed by the second, each read as the empty string when
    absent: empty for a port without bracket expressions, both expressions in
    the order of the text for a port with two. *)
Theorem dimension_is_concatenation (text : string) (w w' : world)
    (moduleName : string) (ins outs : dict) :
  extract text w = (w', Ok (moduleName, ins, outs)) ->
  dimension_from_captures "input" text ins /\
  dimension_from_captures "output" text outs.
Proof.
  intros H. apply extract_ok_inv in H.
  destruct H as (_ & _ & _ & _ & -> & ->). split; apply build_dimension.
Qed.

Lemma dimension_is_concatenation_witness :
  extract twice_declared (World [] None)
  = (World [] None,
     Ok ("m",
         [("a", PortInfo "reg" "[1:0][7:0]"); ("b", PortInfo "" "[3:0]")],
         [("y", PortInfo "" "")])) /\
  dimension_from_captures "input" twice_declared
    [("a", PortInfo "reg" "[1:0][7:0]"); ("b", PortInfo "" "[3:0]")] /\
  dimension_from_captures "output" twice_declared [("y", PortInfo "" "")].
Proof.
  split; [vm_compute; reflexivity|].
  apply (dimension_is_concatenation twice_declared (World [] None)
           (World [] None) "m").
  vm_compute; reflexivity.
Defined.

Lemma match_keyword_boundary (kw text : string) (m : match_obj) :
  In m (finditer (portPattern kw) text) ->
  keyword_follows (drop (m_start m + String.length kw) text) = false ->
  group 2 (m_groups m) = "".
Proof.
  intros Hin Hk. apply finditer_sound in Hin.
  destruct Hin as (_ & st' & Hm & Hg & _).
  unfold match_at, match_here in Hm. apply hd_error_In in Hm.
  apply port_keyword_boundary in Hm; [|reflexivity]. cbn [rest] in Hm.
  rewrite <- Hg in Hm. destruct Hm as (w1 & after & Hr & Hw1 & Hb).
  destruct Hb as [Hb|[Hty Hb]]; [exact Hb|].
  rewrite drop_add, Hr, drop_app, keyword_follows_blank in Hk by exact Hw1.
  rewrite (keyword_follows_word _ _ Hty Hb) in Hk. discriminate.
Qed.

Lemma build_class (kw text : string) :
  class_from_keyword kw text (build (findall5 (portPattern kw) text)).
Proof.
  intros k v H. apply port_origin in H. destruct H as (m & Hl & _ & ->).
  destruct (match_declaration kw text m (proj1 Hl)) as (tail & Hd).
  exists m. split; [exact Hl|]. split; [reflexivity|].
  unfold groups5, info5 in *. cbn [signalType]. split.
  - destruct Hd as (? & ? & ? & ? & ? & ? & _ & _ & _ & _ & _ & _ & _ & _ & _
                    & Hty & _). exact Hty.
  - apply match_keyword_boundary. exact (proj1 Hl).
Qed.

(** C6: a port whose declaration carries no storage-class keyword has the
    unspecified storage class, the empty string, and never [wire] or
    [reg]; a keyword is the word [wire] or [reg] after the direction keyword
    and its white space, and a name such as [regfile] carries none. *)
Theorem no_keyword_is_unspecified (text : string) (w w' : world)
    (moduleName : string) (ins outs : dict) :
  extract text w = (w', Ok (moduleName, ins, outs)) ->
  class_from_keyword "input" text ins /\
  class_from_keyword "output" text outs.
Proof.
  intros H. apply extract_ok_inv in H.
  destruct H as (_ & _ & _ & _ & -> & ->). split; apply build_class.
Qed.

Lemma no_keyword_is_unspecified_witness :
  extract keyword_names (World [] None)
  = (World [] None,
     Ok ("m",
         [("regfile", PortInfo "" ""); ("wire_en", PortInfo "" "");
          ("w", PortInfo "wire" "")],
         [("r", PortInfo "reg" ""); ("wires", PortInfo "" "")])) /\
  class_from_keyword "input" keyword_names
    [("regfile", PortInfo "" ""); ("wire_en", PortInfo "" "");
     ("w", PortInfo "wire" "")] /\
  class_from_keyword "output" keyword_names
    [("r", PortInfo "reg" ""); ("wires", PortInfo "" "")].
Proof.
  split; [vm_compute; reflexivity|].
  apply (no_keyword_is_unspecified keyword_names (World [] None)
           (World [] None) "m").
  vm_compute; reflexivity.
Defined.

(** A name that begins with [reg] or [wire] is no storage class; the word
    itself is. *)
Example keyword_or_name :
  keyword_follows " regfile," = false /\
  keyword_follows " wire_en," = false /\
  keyword_follows " wires);" = false /\
  keyword_follows " wire w," = true /\
  keyword_follows (tab ++ "reg[7:0] r") = true /\
  keyword_follows " reg" = true.
Proof. repeat split; vm_compute; reflexivity. Qed.

(** C7 as stated fails: the input rule matches at position 6 of
    [overlapped], yet the list holds one match only, the one from position
    0 to position 12 whose name covers that occurrence. *)
Lemma occurrence_inside_a_match_is_dropped :
  occurs moduleInputsPattern overlapped 6 = true /\
  map (fun m => (m_start m, m_end m)) (finditer moduleInputsPattern overlapped)
  = [(0, 12)] /\
  String.length overlapped = 13 /\
  findall5 moduleInputsPattern overlapped = [("input", "", "", "", "input")].
Proof. repeat split; vm_compute; reflexivity. Qed.

Lemma finditer_end (r : regex) (text : string) (m : match_obj) :
  In m (finditer r text) ->
  exists st',
    match_at r text (m_start m) = Some st' /\
    m_groups m = caps st' /\
    m_end m <= String.length text /\
    drop (m_end m) text = rest st'.
Proof.
  intros Hm. apply finditer_sound in Hm.
  destruct Hm as (Hle & st' & Ha & Hg & He).
  exists st'. split; [exact Ha|]. split; [exact Hg|].
  unfold match_at, match_here in Ha. apply hd_error_In in Ha.
  apply run_re_reads in Ha. cbn [rest] in Ha. destruct Ha as (w & Hw).
  rewrite Hw, slength_app in He.
  replace (String.length w + String.length (rest st')
           - String.length (rest st')) with (String.length w) in He by lia.
  rewrite He, drop_add, Hw, drop_app. split; [|reflexivity].
  pose proof (take_drop (m_start m) text) as Ht.
  apply (f_equal String.length) in Ht.
  rewrite slength_app, Hw, slength_app, take_length in Ht by exact Hle. lia.
Qed.

Lemma finditer_scanned (r : regex) (text : string) : scanned r text.
Proof.
  unfold scanned. pose proof (scan_in_order r text None 0 0) as Ho.
  fold (finditer r text) in Ho. cbn in Ho.
  assert (Hone : forall m, In m (finditer r text) ->
                           count_at (m_start m) (finditer r text) = 1).
  { intros m Hm. pose proof (count_at_In _ _ Hm).
    pose proof (in_order_once _ 0 (m_start m) Ho). lia. }
  split; [exact Ho|]. split.
  - intros m Hm. pose proof (finditer_sound r text m Hm) as (Hle & st' & Ha & _).
    split; [|split; [auto|apply finditer_end; exact Hm]].
    unfold occurs. rewrite Ha. apply Nat.leb_le in Hle. rewrite Hle. reflexivity.
  - intros pos Hp. apply finditer_complete in Hp.
    destruct Hp as [(m & Hm & <-)|Hp]; [left; auto|right; exact Hp].
Qed.

(** C7, amended: the raw lists of input and output matches are the
    leftmost matches without overlap, in the order of the text.  A listed
    match spans the text the rule reads at its position and no more.  Every
    occurrence of a rule is listed exactly once unless it starts inside a
    match already listed; nothing else is left out. *)
Theorem matches_complete_up_to_overlap (text : string) :
  scanned moduleInputsPattern text /\
  scanned moduleOutputsPattern text /\
  findall5 moduleInputsPattern text
  = map groups5 (finditer moduleInputsPattern text) /\
  findall5 moduleOutputsPattern text
  = map groups5 (finditer moduleOutputsPattern text).
Proof.
  split; [apply finditer_scanned|].
  split; [apply finditer_scanned|]. split; reflexivity.
Qed.

Lemma matches_complete_up_to_overlap_witness :
  map (fun m => (m_start m, m_end m, groups5 m))
      (finditer moduleInputsPattern serialTX)
  = [(106, 116, ("input", "", "", "", "clk"));
     (118, 130, ("input", "", "", "", "reset"));
     (132, 149, ("input", "", "[7:0]", "", "data"));
     (151, 162, ("input", "", "", "", "send"))] /\
  map (fun m => (m_start m, m_end m, groups5 m))
      (finditer moduleOutputsPattern serialTX)
  = [(164, 181, ("output", "reg", "", "", "txOut"));
     (183, 196, ("output", "", "", "", "busy"))] /\
  scanned moduleInputsPattern serialTX /\
  scanned moduleOutputsPattern serialTX.
Proof.
  split; [vm_compute; reflexivity|]. split; [vm_compute; reflexivity|].
  pose proof (matches_complete_up_to_overlap serialTX) as (Hi & Ho & _).
  split; [exact Hi|exact Ho].
Defined.

(** C8: the report is the header row followed by one row per input, in the
    order of the input dictionary, then one row per output, in the order of
    the output dictionary; the third cell of a row is the storage class as
    captured, hence empty when none was given.  This is the file a run
    leaves whenever the extraction yields a record. *)
Theorem report_is_header_inputs_outputs (moduleName : string)
    (ins outs : dict) :
  (forall w : world,
      report (fst (write_report (moduleName, ins, outs) w))
      = Some ((moduleName ++ "_io.csv")%string,
              ["Signal Name"; "Input/Output"; "Signal Type"; "Dimension"]
              :: rows_of "Input" ins ++ rows_of "Output" outs)) /\
  (forall text w',
      extract text (World [] None) = (w', Ok (moduleName, ins, outs)) ->
      report (fst (run text))
      = Some ((moduleName ++ "_io.csv")%string,
              ["Signal Name"; "Input/Output"; "Signal Type"; "Dimension"]
              :: rows_of "Input" ins ++ rows_of "Output" outs)) /\
  (forall label k d,
      rows_of label [(k, PortInfo "" d)] = [[k; label; ""; d]]) /\
  List.length (rows_of "Input" ins ++ rows_of "Output" outs)
  = List.length ins + List.length outs.
Proof.
  split; [|split; [|split]].
  - intros w. rewrite write_report_spec. reflexivity.
  - intros text w' H. unfold run. rewrite main_spec, H, write_report_spec.
    reflexivity.
  - reflexivity.
  - unfold rows_of. rewrite length_app, !length_map. reflexivity.
Qed.

Lemma report_is_header_inputs_outputs_witness :
  extract canonical_lines (World [] None)
  = (World [] None,
     Ok ("foo",
         [("a", PortInfo "" ""); ("b", PortInfo "" "[7:0]")],
         [("busy", PortInfo "reg" "")])) /\
  report (fst (run canonical_lines))
  = Some ("foo_io.csv",
          [["Signal Name"; "Input/Output"; "Signal Type"; "Dimension"];
           ["a"; "Input"; ""; ""];
           ["b"; "Input"; ""; "[7:0]"];
           ["busy"; "Output"; "reg"; ""]]).
Proof.
  split; [vm_compute; reflexivity|].
  apply (proj1 (proj2 (report_is_header_inputs_outputs "foo"
           [("a", PortInfo "" ""); ("b", PortInfo "" "[7:0]")]
           [("busy", PortInfo "reg" "")])) canonical_lines (World [] None)).
  vm_compute; reflexivity.
Defined.

(** C9 as stated fails: [canonical_lines] declares no parameter and the run
    goes through to the end, yet noParamsFound is not among the lines
    printed. *)
Lemma no_parameters_not_reported :
  findall1 moduleParamsPattern canonical_lines = [] /\
  printed (fst (run canonical_lines))
  = [jobDoneMsg "foo" "foo_io.csv"; goodbyeMsg "foo_io.csv"] /\
  existsb is_noParamsFound (printed (fst (run canonical_lines))) = false.
Proof. repeat split; vm_compute; reflexivity. Qed.

(** C9, amended: parameters are not extracted.  The parameter rule and the
    noParamsFound message are defined, but the script never applies the one
    nor prints the other: no run prints noParamsFound, and a run is
    determined by the matches of the module-name, input and output rules
    alone, so parameters neither block nor alter the result. *)
Theorem parameters_never_consulted (text : string) :
  existsb is_noParamsFound (printed (fst (run text))) = false /\
  run text
  = run_outcome (findall1 moduleNamePattern text)
                (findall5 moduleInputsPattern text)
                (findall5 moduleOutputsPattern text).
Proof.
  assert (Hrun : run text
                 = run_outcome (findall1 moduleNamePattern text)
                               (findall5 moduleInputsPattern text)
                               (findall5 moduleOutputsPattern text)).
  { unfold run, run_outcome. rewrite main_spec, extract_spec. reflexivity. }
  split; [|exact Hrun].
  rewrite Hrun. unfold run_outcome, extract_outcome.
  destruct (findall1 moduleNamePattern text) as [|n [|n' l]];
    [reflexivity| |reflexivity].
  destruct (findall5 moduleInputsPattern text) as [|ti li];
    destruct (findall5 moduleOutputsPattern text) as [|to lo];
    try reflexivity.
  rewrite write_report_spec. reflexivity.
Qed.

(** C10: a position that follows a space is never the start of a match of
    the module-name, input or output rule, whatever stands there: the
    lookbehind of every pattern rejects the space.  So a declaration
    indented with spaces, or one that follows [", "] on the same line, is
    not extracted. *)
Theorem no_match_after_a_space (text : string) (pos : nat) :
  char_before text pos = Some " "%char ->
  occurs moduleNamePattern text pos = false /\
  occurs moduleInputsPattern text pos = false /\
  occurs moduleOutputsPattern text pos = false /\
  forall m,
    In m (finditer moduleNamePattern text) \/
    In m (finditer moduleInputsPattern text) \/
    In m (finditer moduleOutputsPattern text) ->
    m_start m <> pos.
Proof.
  intros Hb.
  assert (Hnone : forall r', match_at (NotBehind behind >> r') text pos = None).
  { intros r'. unfold match_at. rewrite Hb. apply lookbehind_blocks.
    reflexivity. }
  assert (Hocc : forall r', occurs (NotBehind behind >> r') text pos = false).
  { intros r'. unfold occurs. rewrite Hnone. apply andb_false_r. }
  assert (Hnot : forall r' m,
             In m (finditer (NotBehind behind >> r') text) -> m_start m <> pos).
  { intros r' m Hm Heq. apply finditer_sound in Hm.
    destruct Hm as (_ & st' & Ha & _). rewrite Heq, Hnone in Ha.
    discriminate. }
  split; [apply Hocc|]. split; [apply Hocc|]. split; [apply Hocc|].
  intros m [H|[H|H]]; revert H; apply Hnot.
Qed.

Lemma no_match_after_a_space_witness :
  char_before canonical 21 = Some " "%char /\
  drop 21 canonical = "input [7:0] b, output reg busy);" /\
  occurs moduleNamePattern canonical 21 = false /\
  occurs moduleInputsPattern canonical 21 = false /\
  occurs moduleOutputsPattern canonical 21 = false /\
  forall m,
    In m (finditer moduleNamePattern canonical) \/
    In m (finditer moduleInputsPattern canonical) \/
    In m (finditer moduleOutputsPattern canonical) ->
    m_start m <> 21.
Proof.
  split; [reflexivity|]. split; [reflexivity|].
  apply (no_match_after_a_space canonical 21). reflexivity.
Defined.

(** * Further properties of the script *)

(** ** The outcomes of a run *)

Lemma run_by_matches (text : string) :
  run text
  = run_outcome (findall1 moduleNamePattern text)
                (findall5 moduleInputsPattern text)
                (findall5 moduleOutputsPattern text).
Proof. unfold run, run_outcome. rewrite main_spec, extract_spec. reflexivity. Qed.

Lemma write_report_on_spec (writable : string -> bool) (moduleName : string)
    (ins outs : dict) (w : world) :
  write_report_on writable (moduleName, ins, outs) w
  = if writable (moduleName ++ "_io.csv")%string
    then write_report (moduleName, ins, outs) w
    else (w, Raise OSError).
Proof.
  unfold write_report_on, write_report, open_w_on.
  destruct (writable (moduleName ++ "_io.csv")%string); reflexivity.
Qed.

Lemma run_on_granted (text : string) : run_on (fun _ => true) text = run text.
Proof.
  unfold run_on, run, main_on. rewrite main_spec. unfold bind.
  destruct (extract text (World [] None)) as [w' [[[n ins] outs]|e]];
    [|reflexivity].
  apply write_report_on_spec.
Qed.

Lemma run_on_by_matches (writable : string -> bool) (text : string) :
  run_on writable text
  = match extract_outcome (findall1 moduleNamePattern text)
                          (findall5 moduleInputsPattern text)
                          (findall5 moduleOutputsPattern text)
                          (World [] None) with
    | (w', Ok io) => write_report_on writable io w'
    | (w', Raise e) => (w', Raise e)
    end.
Proof.
  unfold run_on, main_on. unfold bind at 1. rewrite extract_spec.
  reflexivity.
Qed.

(** X1: on a file system that may refuse files, a report is written exactly
    when the module-name rule has one match, both port rules have at least
    one and the file named after the module can be opened for writing; the
    run then ends in its final [exit()] without an advisory message.  With
    the three found and the file refused, and only then, the run ends in
    the OSError of [open], with no report and nothing printed.  An advisory
    message is always followed by a NameError and no report.  No run ends
    on an IndexError, and none returns normally. *)
Theorem report_iff_found_and_writable (writable : string -> bool)
    (text : string) :
  (report (fst (run_on writable text)) <> None <->
   exists n,
     findall1 moduleNamePattern text = [n] /\
     findall5 moduleInputsPattern text <> [] /\
     findall5 moduleOutputsPattern text <> [] /\
     writable (n ++ "_io.csv")%string = true) /\
  (snd (run_on writable text) = Raise OSError <->
   exists n,
     findall1 moduleNamePattern text = [n] /\
     findall5 moduleInputsPattern text <> [] /\
     findall5 moduleOutputsPattern text <> [] /\
     writable (n ++ "_io.csv")%string = false) /\
  (snd (run_on writable text) = Raise OSError ->
   report (fst (run_on writable text)) = None /\
   printed (fst (run_on writable text)) = []) /\
  (report (fst (run_on writable text)) <> None ->
   snd (run_on writable text) = Raise SystemExit /\
   existsb is_advisory (printed (fst (run_on writable text))) = false) /\
  (existsb is_advisory (printed (fst (run_on writable text))) = true ->
   report (fst (run_on writable text)) = None /\
   (snd (run_on writable text) = Raise (NameError "numInputs") \/
    snd (run_on writable text) = Raise (NameError "numOutputs"))) /\
  snd (run_on writable text) <> Raise IndexError /\
  (forall u, snd (run_on writable text) <> Ok u).
Proof.
  rewrite run_on_by_matches. unfold extract_outcome.
  destruct (findall1 moduleNamePattern text) as [|n [|n' l]];
    destruct (findall5 moduleInputsPattern text) as [|ti li];
    destruct (findall5 moduleOutputsPattern text) as [|to lo];
    rewrite ?write_report_on_spec;
    try destruct (writable (n ++ "_io.csv")%string) eqn:Ew;
    rewrite ?write_report_spec; cbn;
    repeat split; intros;
    repeat match goal with
           | H : exists _, _ |- _ => destruct H
           | H : _ /\ _ |- _ => destruct H
           | H : [_] = [_] |- _ => injection H as H; subst
           end;
    try discriminate; try congruence; try tauto;
    try (exists n; repeat split; (discriminate || assumption || reflexivity)).
Qed.

Lemma report_iff_found_and_writable_witness :
  String.length (letters 249 ++ "_io.csv") = 256 /\
  run_on short_names long_named = (World [] None, Raise OSError) /\
  (report (fst (run_on short_names long_named)) = None /\
   printed (fst (run_on short_names long_named)) = []) /\
  report (fst (run_on short_names canonical_lines)) <> None.
Proof.
  split; [vm_compute; reflexivity|]. split; [vm_compute; reflexivity|].
  pose proof (report_iff_found_and_writable short_names long_named)
    as (_ & _ & Hos & _).
  pose proof (report_iff_found_and_writable short_names canonical_lines)
    as (Hrep & _).
  split; [apply Hos; vm_compute; reflexivity|].
  apply (proj2 Hrep). exists "foo". vm_compute.
  repeat split; discriminate.
Defined.

(** ** What the lookbehind rejects *)

(** X4: a position that follows a slash, a letter or an underscore (or a space)
    is never the start of a match of any of the four rules: a declaration
    commented out with [//] and a keyword at the end of a longer identifier
    are passed over. *)
Theorem no_match_after_slash_or_identifier (text : string) (pos : nat)
    (c : ascii) :
  char_before text pos = Some c ->
  in_cset c behind = true ->
  occurs moduleNamePattern text pos = false /\
  occurs moduleParamsPattern text pos = false /\
  occurs moduleInputsPattern text pos = false /\
  occurs moduleOutputsPattern text pos = false /\
  forall m,
    In m (finditer moduleNamePattern text) \/
    In m (finditer moduleParamsPattern text) \/
    In m (finditer moduleInputsPattern text) \/
    In m (finditer moduleOutputsPattern text) ->
    m_start m <> pos.
Proof.
  intros Hb Hc.
  assert (Hnone : forall r', match_at (NotBehind behind >> r') text pos = None).
  { intros r'. unfold match_at. rewrite Hb. apply lookbehind_blocks.
    exact Hc. }
  assert (Hocc : forall r', occurs (NotBehind behind >> r') text pos = false).
  { intros r'. unfold occurs. rewrite Hnone. apply andb_false_r. }
  repeat (split; [apply Hocc|]).
  intros m H Heq.
  assert (Ha : exists r' st',
             match_at (NotBehind behind >> r') text (m_start m) = Some st').
  { destruct H as [H|[H|[H|H]]]; apply finditer_sound in H;
      destruct H as (_ & st' & Ha & _); eauto. }
  destruct Ha as (r' & st' & Ha). rewrite Heq, Hnone in Ha. discriminate.
Qed.

Lemma no_match_after_slash_or_identifier_witness :
  (char_before commented 12 = Some "/"%char /\
   drop 12 commented
   = ("input a," ++ nl ++ "input b," ++ nl ++ "output data_input);")%string /\
   occurs moduleInputsPattern commented 12 = false) /\
  (char_before commented 42 = Some "_"%char /\
   drop 42 commented = "input);" /\
   occurs moduleInputsPattern commented 42 = false) /\
  findall5 moduleInputsPattern commented = [("input", "", "", "", "b")].
Proof.
  split; [|split].
  - split; [reflexivity|]. split; [reflexivity|].
    apply (no_match_after_slash_or_identifier commented 12 "/"); reflexivity.
  - split; [reflexivity|]. split; [reflexivity|].
    apply (no_match_after_slash_or_identifier commented 42 "_"); reflexivity.
  - vm_compute. reflexivity.
Defined.

(** ** The span of a match *)

Lemma drop_length (n : nat) (s : string) :
  String.length (drop n s) = String.length s - n.
Proof.
  revert s. induction n as [|n IH]; intros [|c s]; cbn; auto.
Qed.

Lemma strip_prefix (l s : string) : strip l (l ++ s) = Some s.
Proof.
  induction l as [|a l IH]; cbn; [reflexivity|].
  rewrite Ascii.eqb_refl. exact IH.
Qed.

Lemma keyword_then_rest (cs : cset) (x r' : regex) (l : string)
    (st st' : mstate) :
  (forall a b, In b (run_re x a) -> exists g, step l g a b) ->
  In st' (run_re (NotBehind cs >> x >> r') st) ->
  exists w, rest st = (l ++ w ++ rest st')%string.
Proof.
  intros Hx H. next_part H s0 H0.
  apply in_not_behind in H0. destruct H0 as [-> _].
  next_part H mid H1.
  destruct (Hx _ _ H1) as (g & E1 & _).
  destruct (run_re_reads _ _ _ H) as (w & E2).
  exists w. rewrite E1, E2. reflexivity.
Qed.

Lemma keyword_spans (cs : cset) (x r' : regex) (kw text : string) :
  (forall a b, In b (run_re x a) -> exists g, step kw g a b) ->
  spans kw (NotBehind cs >> x >> r') text.
Proof.
  intros Hx m Hm. apply finditer_sound in Hm.
  destruct Hm as (Hle & st' & Ha & _ & ->).
  unfold match_at, match_here in Ha. apply hd_error_In in Ha.
  apply (keyword_then_rest cs x r' kw) in Ha; [|exact Hx].
  cbn [rest] in Ha. destruct Ha as (w & Ha).
  pose proof (drop_length (m_start m) text) as Hd.
  rewrite Ha in *. unfold starts_with. rewrite strip_prefix.
  rewrite !slength_app in *. repeat split; lia.
Qed.

(** X7: every match of the four rules starts with the keyword of its rule, so
    it is never empty, and it ends within the text. *)
Theorem matches_span_their_keyword (text : string) :
  spans "module" moduleNamePattern text /\
  spans "parameter" moduleParamsPattern text /\
  spans "input" moduleInputsPattern text /\
  spans "output" moduleOutputsPattern text.
Proof.
  assert (Hlit : forall l a b, In b (run_re (Lit l) a) ->
                               exists g, step l g a b).
  { intros l a b H. apply in_lit in H. eauto. }
  assert (Hgrp : forall l a b, In b (run_re (Group 1 (Lit l)) a) ->
                               exists g, step l g a b).
  { intros l a b H. apply (in_group 1 _ _ _ l) in H; [eauto|].
    intros x. apply in_lit. }
  split; [apply keyword_spans, Hlit|].
  split; [apply keyword_spans, Hlit|].
  split; apply keyword_spans, Hgrp.
Qed.

(** ** The shape of a module header and of a parameter declaration *)

Lemma sapp_empty_r (s : string) : (s ++ "")%string = s.
Proof. induction s; cbn; congruence. Qed.

Lemma in_opt_lit (l : string) (st st' : mstate) :
  In st' (run_re (Opt (Lit l)) st) ->
  exists c, (c = "" \/ c = l) /\ step c [] st st'.
Proof.
  intros H. apply in_opt in H. destruct H as [H| ->].
  - apply in_lit in H. eauto.
  - exists "". split; [auto|apply step_refl].
Qed.

Lemma in_name_group (cs : cset) (st st' : mstate) :
  In st' (run_re (Group 1 (Plus cs)) st) ->
  exists nm, (nm <> "" /\ all_in cs nm = true) /\ step nm [(1, nm)] st st'.
Proof.
  apply (in_group_ex 1 _ _ _ (fun w => w <> "" /\ all_in cs w = true)).
  intros x Hx. apply in_plus in Hx. destruct Hx as (w & ? & ? & ?). eauto.
Qed.

Lemma module_shape (st st' : mstate) :
  caps st = [] ->
  In st' (run_re moduleNamePattern st) ->
  module_header (rest st) (group 1 (caps st')) (rest st').
Proof.
  intros Hc H. unfold moduleNamePattern in H.
  next_part H s1 H0. apply in_not_behind in H0. destruct H0 as [-> _].
  next_part H s2 H1. apply in_lit in H1.
  next_part H s3 H2. apply in_plus in H2.
  destruct H2 as (w1 & Hn1 & Hw1 & H2).
  next_part H s4 H3. apply in_opt_lit in H3. destruct H3 as (p & Hp & H3).
  next_part H s5 H4. apply in_name_group in H4.
  destruct H4 as (nm & [Hnn Hnm] & H4).
  next_part H s6 H5. apply in_star in H5. destruct H5 as (w2 & Hw2 & H5).
  next_part H s7 H6. apply in_opt_lit in H6. destruct H6 as (h & Hh & H6).
  next_part H s8 H7. apply in_star in H7. destruct H7 as (w3 & Hw3 & H7).
  apply in_lit in H.
  pose proof
    (step_trans _ _ _ _ _ _ _ H1 (step_trans _ _ _ _ _ _ _ H2
    (step_trans _ _ _ _ _ _ _ H3 (step_trans _ _ _ _ _ _ _ H4
    (step_trans _ _ _ _ _ _ _ H5 (step_trans _ _ _ _ _ _ _ H6
    (step_trans _ _ _ _ _ _ _ H7 H)))))))
    as [Hr Hg].
  rewrite Hc in Hg. cbn [app] in Hg. rewrite Hg, Hr.
  unfold group. cbn [assoc Nat.eqb].
  exists w1, p, w2, h, w3.
  split; [rewrite !sapp_assoc; reflexivity|].
  unfold blank. intuition auto.
Qed.

Lemma module_match_header (text : string) (m : match_obj) :
  In m (finditer moduleNamePattern text) ->
  exists tail,
    module_header (drop (m_start m) text) (group 1 (m_groups m)) tail.
Proof.
  intros Hin. apply finditer_sound in Hin.
  destruct Hin as (_ & st' & Hm & Hg & _).
  unfold match_at, match_here in Hm. apply hd_error_In in Hm.
  apply module_shape in Hm; [|reflexivity]. cbn [rest] in Hm.
  exists (rest st'). rewrite Hg. exact Hm.
Qed.

Lemma in_bracket_space (st st' : mstate) :
  In st' (run_re (bracket >> Star [Space]) st) ->
  exists d w, square_bracket d /\ blank w = true /\ step (d ++ w) [] st st'.
Proof.
  intros H. next_part H mid Hb. unfold bracket in Hb.
  apply in_enclosed in Hb. destruct Hb as (x & Hn & Hx & Hb).
  apply in_star in H. destruct H as (w & Hw & H).
  exists ("[" ++ x ++ "]")%string, w. split; [exists x; auto|].
  split; [exact Hw|]. exact (step_trans _ _ _ _ _ _ _ Hb H).
Qed.

Lemma in_rep02_bracket (st st' : mstate) :
  In st' (run_re (Rep02 (bracket >> Star [Space])) st) ->
  exists d1 wa d2 wb,
    (d1 = "" \/ square_bracket d1) /\ (d2 = "" \/ square_bracket d2) /\
    blank wa = true /\ blank wb = true /\
    step (d1 ++ wa ++ d2 ++ wb) [] st st'.
Proof.
  unfold Rep02. intros H. apply in_opt in H. destruct H as [H| ->].
  - next_part H mid H1. apply in_bracket_space in H1.
    destruct H1 as (d1 & wa & Hd1 & Hwa & H1).
    apply in_opt in H. destruct H as [H| ->].
    + apply in_bracket_space in H. destruct H as (d2 & wb & Hd2 & Hwb & H2).
      exists d1, wa, d2, wb. do 4 (split; [auto|]).
      pose proof (step_trans _ _ _ _ _ _ _ H1 H2) as Hs.
      rewrite sapp_assoc in Hs. exact Hs.
    + exists d1, wa, "", "". do 4 (split; [auto|]).
      cbn. rewrite sapp_empty_r. exact H1.
  - exists "", "", "", "". do 4 (split; [auto|]). apply step_refl.
Qed.

Lemma parameter_shape (st st' : mstate) :
  caps st = [] ->
  In st' (run_re moduleParamsPattern st) ->
  parameter_decl (rest st) (group 1 (caps st')) (rest st').
Proof.
  intros Hc H. unfold moduleParamsPattern in H.
  next_part H s1 H0. apply in_not_behind in H0. destruct H0 as [-> _].
  next_part H s2 H1. apply in_lit in H1.
  next_part H s3 H2. apply in_star in H2. destruct H2 as (w1 & Hw1 & H2).
  next_part H s4 H3. apply in_rep02_bracket in H3.
  destruct H3 as (d1 & wa & d2 & wb & Hd1 & Hd2 & Hwa & Hwb & H3).
  next_part H s5 H4. apply in_star in H4. destruct H4 as (w2 & Hw2 & H4).
  next_part H s6 H5. apply in_name_group in H5.
  destruct H5 as (nm & [Hnn Hnm] & H5).
  next_part H s7 H6. apply in_star in H6. destruct H6 as (w3 & Hw3 & H6).
  apply in_lit in H.
  pose proof
    (step_trans _ _ _ _ _ _ _ H1 (step_trans _ _ _ _ _ _ _ H2
    (step_trans _ _ _ _ _ _ _ H3 (step_trans _ _ _ _ _ _ _ H4
    (step_trans _ _ _ _ _ _ _ H5 (step_trans _ _ _ _ _ _ _ H6 H))))))
    as [Hr Hg].
  rewrite Hc in Hg. cbn [app] in Hg. rewrite Hg, Hr.
  unfold group. cbn [assoc Nat.eqb].
  exists w1, d1, wa, d2, wb, w2, w3.
  split; [rewrite !sapp_assoc; reflexivity|].
  unfold blank. intuition auto.
Qed.

(** X8: every name the parameter rule captures is a non-empty run of letters,
    digits and underscores, and stands in the text after the keyword
    [parameter], at most two bracket expressions and white space, and before
    white space and an equals sign. *)
Theorem parameter_name_shape (text name : string) :
  In name (findall1 moduleParamsPattern text) ->
  name <> "" /\ all_in ident name = true /\
  exists m tail,
    In m (finditer moduleParamsPattern text) /\
    parameter_decl (drop (m_start m) text) name tail.
Proof.
  unfold findall1. rewrite in_map_iff. intros (m & <- & Hin).
  pose proof Hin as Hs. apply finditer_sound in Hs.
  destruct Hs as (_ & st' & Hm & Hg & _).
  unfold match_at, match_here in Hm. apply hd_error_In in Hm.
  apply parameter_shape in Hm; [|reflexivity]. cbn [rest] in Hm.
  rewrite <- Hg in Hm.
  assert (Hn : group 1 (m_groups m) <> "" /\
               all_in ident (group 1 (m_groups m)) = true).
  { destruct Hm as (? & ? & ? & ? & ? & ? & ? & _ & _ & _ & _ & _ & _ & _ & _
                    & Hn & Ha). auto. }
  destruct Hn as [Hn Ha]. split; [exact Hn|]. split; [exact Ha|].
  exists m, (rest st'). auto.
Qed.

Lemma parameter_name_shape_witness :
  In "INCR" (findall1 moduleParamsPattern serialTX) /\
  "INCR" <> "" /\ all_in ident "INCR" = true /\
  exists m tail,
    In m (finditer moduleParamsPattern serialTX) /\
    parameter_decl (drop (m_start m) serialTX) "INCR" tail.
Proof.
  split; [vm_compute; auto|].
  apply (parameter_name_shape serialTX "INCR"). vm_compute. auto.
Defined.

(** ** The report file *)

Lemma report_inv (text f : string) (rows : list row) :
  report (fst (run text)) = Some (f, rows) ->
  exists n,
    findall1 moduleNamePattern text = [n] /\
    f = (n ++ "_io.csv")%string /\
    rows = header :: rows_of "Input" (build (findall5 moduleInputsPattern text))
                  ++ rows_of "Output"
                       (build (findall5 moduleOutputsPattern text)).
Proof.
  rewrite run_by_matches. unfold run_outcome, extract_outcome.
  destruct (findall1 moduleNamePattern text) as [|n [|n' l]];
    [discriminate| |discriminate].
  destruct (findall5 moduleInputsPattern text) as [|ti li];
    destruct (findall5 moduleOutputsPattern text) as [|to lo];
    try discriminate.
  rewrite write_report_spec. cbn [fst report]. intros [= <- <-].
  exists n. auto.
Qed.

Lemma all_in_app (cs : cset) (a b : string) :
  all_in cs (a ++ b) = all_in cs a && all_in cs b.
Proof.
  induction a as [|c a IH]; cbn; [reflexivity|].
  rewrite IH, andb_assoc. reflexivity.
Qed.

Lemma all_in_more (i : citem) (cs : cset) (w : string) :
  all_in cs w = true -> all_in (i :: cs) w = true.
Proof.
  induction w as [|c w IH]; cbn; [reflexivity|].
  intros H. apply andb_prop in H. destruct H as [Hc Hw].
  unfold in_cset in Hc. rewrite Hc, orb_true_r. cbn. auto.
Qed.

(** X2: the report file is named after the module: its name is the captured
    identifier, a non-empty run of letters, digits and underscores taken
    from a module header of the text, followed by [_io.csv]; so it holds no
    path separator and the file is written where the script runs. *)
Theorem report_named_after_module (text f : string) (rows : list row) :
  report (fst (run text)) = Some (f, rows) ->
  exists name,
    f = (name ++ "_io.csv")%string /\
    name <> "" /\ all_in ident name = true /\
    all_in (Single "." :: ident) f = true /\
    findall1 moduleNamePattern text = [name] /\
    exists m tail,
      In m (finditer moduleNamePattern text) /\
      module_header (drop (m_start m) text) name tail.
Proof.
  intros H. apply report_inv in H. destruct H as (n & Hn & -> & _).
  assert (Hin : In n (findall1 moduleNamePattern text))
    by (rewrite Hn; left; reflexivity).
  unfold findall1 in Hin. apply in_map_iff in Hin.
  destruct Hin as (m & Hg & Hm).
  destruct (module_match_header text m Hm) as (tail & Hh).
  rewrite Hg in Hh.
  assert (Hid : n <> "" /\ all_in ident n = true).
  { destruct Hh as (? & ? & ? & ? & ? & _ & _ & _ & _ & Hne & Ha & _). auto. }
  destruct Hid as [Hne Ha].
  exists n. split; [reflexivity|]. split; [exact Hne|]. split; [exact Ha|].
  split; [|split; [exact Hn|eauto]].
  rewrite all_in_app, (all_in_more _ _ _ Ha). reflexivity.
Qed.

Lemma report_named_after_module_witness :
  report (fst (run serialTX))
  = Some ("serialTX_io.csv",
          [["Signal Name"; "Input/Output"; "Signal Type"; "Dimension"];
           ["clk"; "Input"; ""; ""];
           ["reset"; "Input"; ""; ""];
           ["data"; "Input"; ""; "[7:0]"];
           ["send"; "Input"; ""; ""];
           ["txOut"; "Output"; "reg"; ""];
           ["busy"; "Output"; ""; ""]]) /\
  exists name,
    "serialTX_io.csv" = (name ++ "_io.csv")%string /\
    name <> "" /\ all_in ident name = true /\
    all_in (Single "." :: ident) "serialTX_io.csv" = true /\
    findall1 moduleNamePattern serialTX = [name] /\
    exists m tail,
      In m (finditer moduleNamePattern serialTX) /\
      module_header (drop (m_start m) serialTX) name tail.
Proof.
  split; [vm_compute; reflexivity|].
  eapply (report_named_after_module serialTX). vm_compute. reflexivity.
Defined.

Lemma plain_app (a b : string) : plain (a ++ b) = plain a && plain b.
Proof.
  induction a as [|c a IH]; cbn; [reflexivity|].
  rewrite IH, andb_assoc. reflexivity.
Qed.

Lemma special_cases (c : ascii) :
  special c = true ->
  c = ","%char \/ c = "034"%char \/ c = "013"%char \/ c = "010"%char.
Proof.
  unfold special. intros H.
  repeat (apply orb_prop in H; destruct H as [H|H]);
    apply Ascii.eqb_eq in H; auto.
Qed.

Lemma all_in_plain (cs : cset) (w : string) :
  in_cset "," cs = false -> in_cset "034" cs = false ->
  in_cset "013" cs = false -> in_cset "010" cs = false ->
  all_in cs w = true -> plain w = true.
Proof.
  intros H1 H2 H3 H4. induction w as [|c w IH]; cbn; [reflexivity|].
  intros H. apply andb_prop in H. destruct H as [Hc Hw].
  rewrite (IH Hw), andb_true_r.
  destruct (special c) eqn:E; [|reflexivity].
  apply special_cases in E. destruct E as [->|[->|[->| ->]]]; congruence.
Qed.

Lemma bracket_expr_plain (d : string) : bracket_expr d -> plain d = true.
Proof.
  intros [(x & _ & Hx & ->)|[(x & _ & Hx & ->)|(x & _ & Hx & ->)]];
    cbn; rewrite plain_app, andb_true_r;
    refine (all_in_plain _ _ _ _ _ _ Hx); reflexivity.
Qed.

Lemma declaration_plain (kw s : string) (t : tuple5) (tail : string) :
  declaration kw s t tail ->
  plain (name5 t) = true /\ plain (signalType (info5 t)) = true /\
  plain (signalDimension (info5 t)) = true.
Proof.
  destruct t as [[[[g1 g2] g3] g4] g5]. cbn.
  intros (w1 & w2 & w3 & w4 & w5 & c & _ & _ & _ & _ & _ & _ & _ & _ & _
          & Hty & H3 & H4 & _ & H5).
  split; [|split].
  - refine (all_in_plain _ _ _ _ _ _ H5); reflexivity.
  - destruct Hty as [->|[->| ->]]; reflexivity.
  - rewrite plain_app.
    destruct H3 as [->|H3], H4 as [->|H4];
      rewrite ?(bracket_expr_plain _ H3), ?(bracket_expr_plain _ H4);
      reflexivity.
Qed.

Lemma dict_get_In (k : string) (v : port_info) (d : dict) :
  dict_get k d = Some v -> exists k', In (k', v) d /\ k' = k.
Proof.
  induction d as [|[k0 v0] d IH]; cbn; [discriminate|].
  destruct (String.eqb k0 k) eqn:E.
  - intros [= ->]. apply String.eqb_eq in E. eauto.
  - intros H. destruct (IH H) as (k' & Hin & Hk). eauto.
Qed.

Lemma In_dict_get (k : string) (v : port_info) (d : dict) :
  NoDup (keys d) -> In (k, v) d -> dict_get k d = Some v.
Proof.
  unfold keys. induction d as [|[k0 v0] d IH]; cbn; [tauto|].
  intros Hnd [H|H]; inversion Hnd as [|? ? Hni Hnd']; subst.
  - injection H as -> ->. rewrite String.eqb_refl. reflexivity.
  - destruct (String.eqb k0 k) eqn:E; [|auto].
    apply String.eqb_eq in E. subst k0. exfalso. apply Hni.
    apply (in_map fst) in H. exact H.
Qed.

Lemma build_NoDup (l : list tuple5) : NoDup (keys (build l)).
Proof. rewrite keys_build. apply uniq_NoDup. Qed.

(** An entry of a dictionary is the name and the fields of a tuple of the
    list, the last one with that name. *)
Lemma build_entry (l : list tuple5) (k : string) (v : port_info) :
  In (k, v) (build l) <->
  exists t, last_named k l = Some t /\ v = info5 t.
Proof.
  split.
  - intros H. apply In_dict_get in H; [|apply build_NoDup].
    rewrite dict_get_build in H.
    destruct (last_named k l) as [t|]; [|discriminate].
    cbn in H. injection H as <-. eauto.
  - intros (t & Ht & ->).
    pose proof (dict_get_build k l) as H. rewrite Ht in H. cbn in H.
    apply dict_get_In in H. destruct H as (k' & Hin & ->). exact Hin.
Qed.

Lemma rows_of_well_formed (kw label text : string) :
  plain label = true ->
  forallb well_formed_row
    (rows_of label (build (findall5 (portPattern kw) text))) = true.
Proof.
  intros Hl. apply forallb_forall. intros r Hr.
  unfold rows_of in Hr. apply in_map_iff in Hr.
  destruct Hr as ([k v] & <- & Hin). cbn [fst snd].
  apply build_entry in Hin. destruct Hin as (t & Ht & ->).
  apply last_named_In in Ht. destruct Ht as [Hin <-].
  unfold findall5 in Hin. apply in_map_iff in Hin.
  destruct Hin as (m & <- & Hm).
  destruct (match_declaration kw text m Hm) as (tail & Hd).
  apply declaration_plain in Hd. destruct Hd as (H1 & H2 & H3).
  unfold well_formed_row. cbn [List.length forallb].
  rewrite H1, H2, H3, Hl. reflexivity.
Qed.

(** X3: every row of a report has four cells, and no cell holds a comma, a
    double quote, a carriage return or a line feed: nothing in the file
    needs quoting, and a line of the file is a row. *)
Theorem report_rows_need_no_quoting (text f : string) (rows : list row) :
  report (fst (run text)) = Some (f, rows) ->
  forallb well_formed_row rows = true.
Proof.
  intros H. apply report_inv in H. destruct H as (n & _ & _ & ->).
  cbn [forallb]. rewrite forallb_app.
  unfold moduleInputsPattern, moduleOutputsPattern.
  rewrite !rows_of_well_formed by reflexivity. reflexivity.
Qed.

Lemma report_rows_need_no_quoting_witness :
  report (fst (run twice_declared))
  = Some ("m_io.csv",
          [["Signal Name"; "Input/Output"; "Signal Type"; "Dimension"];
           ["a"; "Input"; "reg"; "[1:0][7:0]"];
           ["b"; "Input"; ""; "[3:0]"];
           ["y"; "Output"; ""; ""]]) /\
  forallb well_formed_row
    [["Signal Name"; "Input/Output"; "Signal Type"; "Dimension"];
     ["a"; "Input"; "reg"; "[1:0][7:0]"];
     ["b"; "Input"; ""; "[3:0]"];
     ["y"; "Output"; ""; ""]] = true.
Proof.
  split; [vm_compute; reflexivity|].
  apply (report_rows_need_no_quoting twice_declared "m_io.csv").
  vm_compute. reflexivity.
Defined.

Lemma last_named_exists (l : list tuple5) (t : tuple5) :
  In t l -> exists t', last_named (name5 t) l = Some t'.
Proof.
  intros Hin. unfold last_named.
  destruct (find (fun t0 => String.eqb (name5 t0) (name5 t)) (rev l))
    as [t'|] eqn:E; [eauto|].
  apply in_rev in Hin. apply (find_none _ _ E t) in Hin.
  rewrite String.eqb_refl in Hin. discriminate.
Qed.

Lemma rows_of_build (label : string) (l : list tuple5) (r : row) :
  In r (rows_of label (build l)) <->
  exists t, last_named (name5 t) l = Some t /\ r = tuple_row label t.
Proof.
  unfold rows_of. rewrite in_map_iff. split.
  - intros ([k v] & <- & Hin). cbn [fst snd].
    apply build_entry in Hin. destruct Hin as (t & Ht & ->).
    pose proof (last_named_In _ _ _ Ht) as [_ <-]. exists t. auto.
  - intros (t & Ht & ->). exists (name5 t, info5 t). split; [reflexivity|].
    apply build_entry. eauto.
Qed.

Lemma rows_of_length (label : string) (l : list tuple5) :
  List.length (rows_of label (build l)) = List.length (uniq (map name5 l)).
Proof.
  unfold rows_of. rewrite length_map, <- keys_build. unfold keys.
  rewrite length_map. reflexivity.
Qed.

Lemma port_has_row (label : string) (l : list tuple5) (t : tuple5) :
  In t l ->
  exists t', In t' l /\ name5 t' = name5 t /\
             In (tuple_row label t') (rows_of label (build l)).
Proof.
  intros Hin. destruct (last_named_exists l t Hin) as (t' & Ht).
  pose proof (last_named_In _ _ _ Ht) as [Hin' Hn].
  exists t'. split; [exact Hin'|]. split; [exact Hn|].
  apply rows_of_build. exists t'. rewrite Hn. auto.
Qed.

(** X6: the rows of a report are the ports found and nothing else: after the
    header there is one row for every distinct input name and one for every
    distinct output name; every name matched has its row; and every row
    holds the name, storage class and dimension of one match, unchanged. *)
Theorem report_rows_are_the_ports (text f : string) (rows : list row) :
  report (fst (run text)) = Some (f, rows) ->
  List.length rows
  = 1 + List.length (uniq (map name5 (findall5 moduleInputsPattern text)))
      + List.length (uniq (map name5 (findall5 moduleOutputsPattern text))) /\
  (forall t, In t (findall5 moduleInputsPattern text) ->
     exists t', In t' (findall5 moduleInputsPattern text) /\
                name5 t' = name5 t /\ In (tuple_row "Input" t') rows) /\
  (forall t, In t (findall5 moduleOutputsPattern text) ->
     exists t', In t' (findall5 moduleOutputsPattern text) /\
                name5 t' = name5 t /\ In (tuple_row "Output" t') rows) /\
  (forall r, In r rows ->
     r = header \/
     (exists t, In t (findall5 moduleInputsPattern text) /\
                r = tuple_row "Input" t) \/
     (exists t, In t (findall5 moduleOutputsPattern text) /\
                r = tuple_row "Output" t)).
Proof.
  intros H. apply report_inv in H. destruct H as (n & _ & _ & ->).
  split; [|split; [|split]].
  - cbn [List.length]. rewrite length_app, !rows_of_length. lia.
  - intros t Ht. destruct (port_has_row "Input" _ t Ht) as (t' & H1 & H2 & H3).
    exists t'. split; [exact H1|]. split; [exact H2|].
    right. apply in_or_app. left. exact H3.
  - intros t Ht. destruct (port_has_row "Output" _ t Ht) as (t' & H1 & H2 & H3).
    exists t'. split; [exact H1|]. split; [exact H2|].
    right. apply in_or_app. right. exact H3.
  - intros r [<-|Hr]; [left; reflexivity|right].
    apply in_app_or in Hr. destruct Hr as [Hr|Hr];
      apply rows_of_build in Hr; destruct Hr as (t & Ht & ->);
      apply last_named_In in Ht; destruct Ht as [Hin _]; eauto.
Qed.

Lemma report_rows_are_the_ports_witness :
  report (fst (run twice_declared))
  = Some ("m_io.csv",
          [["Signal Name"; "Input/Output"; "Signal Type"; "Dimension"];
           ["a"; "Input"; "reg"; "[1:0][7:0]"];
           ["b"; "Input"; ""; "[3:0]"];
           ["y"; "Output"; ""; ""]]) /\
  List.length (findall5 moduleInputsPattern twice_declared) = 3 /\
  List.length (findall5 moduleOutputsPattern twice_declared) = 2 /\
  List.length
    [["Signal Name"; "Input/Output"; "Signal Type"; "Dimension"];
     ["a"; "Input"; "reg"; "[1:0][7:0]"];
     ["b"; "Input"; ""; "[3:0]"];
     ["y"; "Output"; ""; ""]]
  = 1 + List.length
          (uniq (map name5 (findall5 moduleInputsPattern twice_declared)))
      + List.length
          (uniq (map name5 (findall5 moduleOutputsPattern twice_declared))).
Proof.
  split; [vm_compute; reflexivity|]. split; [vm_compute; reflexivity|].
  split; [vm_compute; reflexivity|].
  apply (report_rows_are_the_ports twice_declared "m_io.csv").
  vm_compute. reflexivity.
Defined.

(** ** What the port rules match *)

Lemma star_self (cs : cset) (p : option ascii) (s : string)
    (g : list (nat * string)) :
  In (MState p s g) (star cs p s g).
Proof.
  destruct s as [|c s]; cbn; [auto|].
  destruct (in_cset c cs); [apply in_or_app; right|]; cbn; auto.
Qed.

Lemma eats_lit (l : string) : eats (Lit l) l.
Proof.
  intros p s' g. exists g. cbn. rewrite strip_prefix. left. reflexivity.
Qed.

Lemma eats_star (cs : cset) (w : string) :
  all_in cs w = true -> eats (Star cs) w.
Proof.
  intros Hw p s' g. exists g. cbn [run_re prev rest caps]. revert p.
  induction w as [|c w IH]; intros p; cbn.
  - apply star_self.
  - cbn in Hw. apply andb_prop in Hw. destruct Hw as [Hc Hw].
    rewrite Hc. apply in_or_app. left. apply IH. exact Hw.
Qed.

Lemma eats_seq (a b : regex) (w1 w2 : string) :
  eats a w1 -> eats b w2 -> eats (a >> b) (w1 ++ w2).
Proof.
  intros Ha Hb p s' g. rewrite sapp_assoc, last_char_app.
  destruct (Ha p (w2 ++ s')%string g) as (g1 & H1).
  destruct (Hb (last_char p w1) s' g1) as (g2 & H2).
  exists g2. cbn. apply in_flat_map. eauto.
Qed.

Lemma eats_plus (cs : cset) (w : string) :
  w <> "" -> all_in cs w = true -> eats (Plus cs) w.
Proof.
  destruct w as [|c w]; [congruence|]. intros _ Hw.
  cbn in Hw. apply andb_prop in Hw. destruct Hw as [Hc Hw].
  change (String c w) with (String c "" ++ w)%string.
  apply eats_seq; [|apply eats_star; exact Hw].
  intros p s' g. exists g. cbn. rewrite Hc. left. reflexivity.
Qed.

Lemma eats_opt_skip (a : regex) : eats (Opt a) "".
Proof. intros p s' g. exists g. cbn. apply in_or_app. right. cbn. auto. Qed.

Lemma eats_opt (a : regex) (w : string) : eats a w -> eats (Opt a) w.
Proof.
  intros Ha p s' g. destruct (Ha p s' g) as (g' & H). exists g'.
  cbn. apply in_or_app. left. exact H.
Qed.

Lemma eats_alt_l (a b : regex) (w : string) : eats a w -> eats (Alt a b) w.
Proof.
  intros Ha p s' g. destruct (Ha p s' g) as (g' & H). exists g'.
  cbn. apply in_or_app. left. exact H.
Qed.

Lemma eats_alt_r (a b : regex) (w : string) : eats b w -> eats (Alt a b) w.
Proof.
  intros Hb p s' g. destruct (Hb p s' g) as (g' & H). exists g'.
  cbn. apply in_or_app. right. exact H.
Qed.

Lemma eats_group (n : nat) (a : regex) (w : string) :
  eats a w -> eats (Group n a) w.
Proof.
  intros Ha p s' g. destruct (Ha p s' g) as (g' & H).
  eexists. cbn [run_re]. apply in_map_iff.
  exists (MState (last_char p w) s' g'). split; [reflexivity|exact H].
Qed.

Lemma reads_seq (a b : regex) (p p1 p2 : option ascii) (s s1 s2 : string) :
  reads a p s p1 s1 -> reads b p1 s1 p2 s2 -> reads (a >> b) p s p2 s2.
Proof.
  intros Ha Hb g. destruct (Ha g) as (g1 & H1). destruct (Hb g1) as (g2 & H2).
  exists g2. cbn. apply in_flat_map. eauto.
Qed.

Lemma eats_dimension (d : string) : bracket_expr d -> eats dimension d.
Proof.
  unfold dimension, bracket.
  intros [(x & Hn & Hx & ->)|[(x & Hn & Hx & ->)|(x & Hn & Hx & ->)]].
  - apply eats_alt_l.
    apply eats_seq; [apply eats_lit|].
    apply eats_seq; [apply eats_plus; assumption|apply eats_lit].
  - apply eats_alt_r, eats_alt_l.
    apply eats_seq; [apply eats_lit|].
    apply eats_seq; [apply eats_plus; assumption|apply eats_lit].
  - apply eats_alt_r, eats_alt_r.
    apply eats_seq; [apply eats_lit|].
    apply eats_seq; [apply eats_plus; assumption|apply eats_lit].
Qed.

Lemma eats_opt_dimension (n : nat) (d : string) :
  d = "" \/ bracket_expr d -> eats (Opt (Group n dimension)) d.
Proof.
  intros [->|Hd]; [apply eats_opt_skip|].
  apply eats_opt, eats_group, eats_dimension. exact Hd.
Qed.

(** The part of the port rule after the storage class. *)
Lemma eats_port_tail (w2 g3 w3 g4 w4 g5 w5 c : string) :
  blank w2 = true -> blank w3 = true -> blank w4 = true -> blank w5 = true ->
  g3 = "" \/ bracket_expr g3 -> g4 = "" \/ bracket_expr g4 ->
  g5 <> "" -> all_in port_name g5 = true -> c = "" \/ c = "," ->
  eats (Star [Space] >> Opt (Group 3 dimension) >>
        Star [Space] >> Opt (Group 4 dimension) >>
        Star [Space] >> Group 5 (Plus port_name) >>
        Star [Space] >> Opt (Lit ","))
       (w2 ++ g3 ++ w3 ++ g4 ++ w4 ++ g5 ++ w5 ++ c).
Proof.
  intros H2 H3 H4 H5 Hg3 Hg4 Hn Hg5 Hc.
  apply eats_seq; [apply eats_star; exact H2|].
  apply eats_seq; [apply eats_opt_dimension; exact Hg3|].
  apply eats_seq; [apply eats_star; exact H3|].
  apply eats_seq; [apply eats_opt_dimension; exact Hg4|].
  apply eats_seq; [apply eats_star; exact H4|].
  apply eats_seq; [apply eats_group, eats_plus; assumption|].
  apply eats_seq; [apply eats_star; exact H5|].
  destruct Hc as [->| ->]; [apply eats_opt_skip|apply eats_opt, eats_lit].
Qed.

Lemma reads_opt (a : regex) (p p' : option ascii) (s s' : string) :
  reads a p s p' s' -> reads (Opt a) p s p' s'.
Proof.
  intros Ha g. destruct (Ha g) as (g' & H). exists g'.
  cbn. apply in_or_app. left. exact H.
Qed.

Lemma reads_alt_l (a b : regex) (p p' : option ascii) (s s' : string) :
  reads a p s p' s' -> reads (Alt a b) p s p' s'.
Proof.
  intros Ha g. destruct (Ha g) as (g' & H). exists g'.
  cbn. apply in_or_app. left. exact H.
Qed.

Lemma reads_alt_r (a b : regex) (p p' : option ascii) (s s' : string) :
  reads b p s p' s' -> reads (Alt a b) p s p' s'.
Proof.
  intros Hb g. destruct (Hb g) as (g' & H). exists g'.
  cbn. apply in_or_app. right. exact H.
Qed.

Lemma reads_group (n : nat) (a : regex) (p p' : option ascii)
    (s s' : string) :
  reads a p s p' s' -> reads (Group n a) p s p' s'.
Proof.
  intros Ha g. destruct (Ha g) as (g' & H).
  eexists. cbn [run_re]. apply in_map_iff.
  exists (MState p' s' g'). split; [reflexivity|exact H].
Qed.

Lemma reads_keyword_boundary (l : string) (p : option ascii) (s' : string) :
  word_at (last_char p l) = true ->
  word_at (next_char s') = false ->
  reads (Lit l >> WordB) p (l ++ s') (last_char p l) s'.
Proof.
  intros Hl Hw g. exists g. cbn. rewrite strip_prefix. cbn.
  rewrite Hl, Hw. cbn. auto.
Qed.

(** The storage class, when what follows it is not a word character. *)
Lemma reads_storage (g2 : string) (p : option ascii) (s' : string) :
  g2 = "" \/ ((g2 = "wire" \/ g2 = "reg") /\
              word_at (next_char s') = false) ->
  reads (Opt (Group 2 (Alt (Lit "wire" >> WordB) (Lit "reg" >> WordB))))
        p (g2 ++ s') (last_char p g2) s'.
Proof.
  intros [->|[[-> | ->] Hw]].
  - apply (eats_opt_skip _ p s').
  - apply reads_opt, reads_group, reads_alt_l.
    apply reads_keyword_boundary; [reflexivity|exact Hw].
  - apply reads_opt, reads_group, reads_alt_r.
    apply reads_keyword_boundary; [reflexivity|exact Hw].
Qed.

Lemma reads_not_behind (cs : cset) (p : option ascii) (s : string) :
  (forall c, p = Some c -> in_cset c cs = false) ->
  reads (NotBehind cs) p s p s.
Proof.
  intros H g. exists g. cbn. destruct p as [c|]; [|cbn; auto].
  rewrite (H c eq_refl). cbn. auto.
Qed.

Lemma port_path (kw : string) (p : option ascii)
    (w1 g2 w2 g3 w3 g4 w4 g5 w5 c tail : string) :
  (forall ch, p = Some ch -> in_cset ch behind = false) ->
  w1 <> "" -> blank w1 = true -> blank w2 = true -> blank w3 = true ->
  blank w4 = true -> blank w5 = true ->
  g2 = "" \/
  ((g2 = "wire" \/ g2 = "reg") /\
   word_at (next_char (w2 ++ g3 ++ w3 ++ g4 ++ w4 ++ g5 ++ w5 ++ c ++ tail))
   = false) ->
  g3 = "" \/ bracket_expr g3 -> g4 = "" \/ bracket_expr g4 ->
  g5 <> "" -> all_in port_name g5 = true -> c = "" \/ c = "," ->
  exists p',
    reads (portPattern kw) p
      (kw ++ w1 ++ g2 ++ w2 ++ g3 ++ w3 ++ g4 ++ w4 ++ g5 ++ w5 ++ c ++ tail)
      p' tail.
Proof.
  intros Hp Hn1 H1 H2 H3 H4 H5 Hg2 Hg3 Hg4 Hn5 Hg5 Hc.
  pose proof (eats_port_tail w2 g3 w3 g4 w4 g5 w5 c H2 H3 H4 H5 Hg3 Hg4
                Hn5 Hg5 Hc) as Ht.
  eexists. unfold portPattern.
  eapply reads_seq; [apply reads_not_behind; exact Hp|].
  eapply reads_seq; [apply (eats_group 1 _ kw (eats_lit kw))|].
  eapply reads_seq; [apply (eats_plus _ w1 Hn1 H1)|].
  eapply reads_seq; [apply reads_storage; exact Hg2|].
  specialize (Ht (last_char (last_char (last_char p kw) w1) g2) tail).
  rewrite !sapp_assoc in Ht. exact Ht.
Qed.

Lemma space_not_word (c : ascii) : is_space c = true -> is_word c = false.
Proof.
  destruct c as [[] [] [] [] [] [] [] []]; vm_compute; intros H;
    (reflexivity || discriminate H).
Qed.

Lemma blank_head (w x : string) :
  blank w = true -> word_at (next_char (w ++ x)) = true -> w = "".
Proof.
  destruct w as [|c w]; [reflexivity|]. unfold blank. cbn.
  rewrite orb_false_r. intros H Hw. apply andb_prop in H.
  destruct H as [Hc _]. rewrite (space_not_word c Hc) in Hw. discriminate.
Qed.

Lemma bracket_head (d x : string) :
  bracket_expr d -> word_at (next_char (d ++ x)) = false.
Proof.
  intros [(y & _ & _ & ->)|[(y & _ & _ & ->)|(y & _ & _ & ->)]]; reflexivity.
Qed.

Lemma optional_bracket_head (d x : string) :
  d = "" \/ bracket_expr d -> word_at (next_char (d ++ x)) = true -> d = "".
Proof.
  intros [->|Hd] Hw; [reflexivity|].
  rewrite (bracket_head d x Hd) in Hw. discriminate.
Qed.

(** A text of the shape of a declaration is matched, whichever way its
    parts were told apart. *)
Lemma declaration_read (kw s : string) (t : tuple5) (tail : string)
    (p : option ascii) :
  (forall ch, p = Some ch -> in_cset ch behind = false) ->
  declaration kw s t tail ->
  exists p', reads (portPattern kw) p s p' tail.
Proof.
  intros Hp. destruct t as [[[[g1 g2] g3] g4] g5].
  intros (w1 & w2 & w3 & w4 & w5 & c & -> & _ & Hn1 & H1 & H2 & H3 & H4 & H5
          & Hc & Hty & Hg3 & Hg4 & Hn5 & Hg5).
  destruct Hty as [->|Hty].
  { apply port_path; auto. }
  destruct (word_at (next_char (w2 ++ g3 ++ w3 ++ g4 ++ w4 ++ g5 ++ w5 ++ c
                                ++ tail))) eqn:Hw.
  2: { apply port_path; auto. }
  (* the keyword runs on into the name: it is read as a part of the name *)
  pose proof (blank_head _ _ H2 Hw) as ->. cbn [append] in Hw |- *.
  pose proof (optional_bracket_head _ _ Hg3 Hw) as ->. cbn [append] in Hw |- *.
  pose proof (blank_head _ _ H3 Hw) as ->. cbn [append] in Hw |- *.
  pose proof (optional_bracket_head _ _ Hg4 Hw) as ->. cbn [append] in Hw |- *.
  pose proof (blank_head _ _ H4 Hw) as ->. cbn [append] in Hw |- *.
  assert (Hname : (g2 ++ g5)%string <> "" /\
                  all_in port_name (g2 ++ g5) = true).
  { rewrite all_in_app, Hg5. destruct Hty as [-> | ->]; split;
      (discriminate || reflexivity). }
  destruct Hname as [Hnn Hna].
  pose proof (port_path kw p w1 "" "" "" "" "" "" (g2 ++ g5) w5 c tail
                Hp Hn1 H1 eq_refl eq_refl eq_refl H5 (or_introl eq_refl)
                (or_introl eq_refl) (or_introl eq_refl) Hnn Hna Hc) as Hr.
  cbn [append] in Hr. rewrite sapp_assoc in Hr. exact Hr.
Qed.

(** X5: the input and output rules, told in full: a position of a text is an
    occurrence of the rule for a keyword exactly when it lies in the text,
    does not follow a space, a slash, a letter or an underscore, and the
    text goes on from there with the keyword, white space, an optional
    storage class, up to two optional bracket expressions and a name, in
    this order. *)
Theorem port_rule_characterised (kw text : string) (pos : nat) :
  occurs (portPattern kw) text pos = true <->
  pos <= String.length text /\
  (forall c, char_before text pos = Some c -> in_cset c behind = false) /\
  exists t tail, declaration kw (drop pos text) t tail.
Proof.
  unfold occurs, match_at, match_here. split.
  - intros H. apply andb_prop in H. destruct H as [Hle Hm].
    apply Nat.leb_le in Hle. split; [exact Hle|].
    destruct (hd_error _) as [st'|] eqn:E; [|discriminate].
    apply hd_error_In in E. split.
    + pose proof E as E'. unfold portPattern in E'.
      next_part E' s0 H0. apply in_not_behind in H0.
      destruct H0 as [_ H0]. exact H0.
    + apply port_shape in E; [|reflexivity]. cbn [rest] in E. eauto.
  - intros (Hle & Hp & t & tail & Hd).
    apply Nat.leb_le in Hle. rewrite Hle. cbn [andb].
    destruct (declaration_read kw _ t tail (char_before text pos) Hp Hd)
      as (p' & Hr).
    destruct (Hr []) as (g' & Hin).
    destruct (run_re (portPattern kw)
                (MState (char_before text pos) (drop pos text) []));
      [contradiction|reflexivity].
Qed.

Lemma port_rule_characterised_witness :
  drop 12 canonical = "input a, input [7:0] b, output reg busy);" /\
  char_before canonical 12 = Some "("%char /\
  occurs (portPattern "input") canonical 12 = true.
Proof.
  split; [reflexivity|]. split; [reflexivity|].
  apply (proj2 (port_rule_characterised "input" canonical 12)).
  split; [vm_compute; lia|]. split.
  - intros c [= <-]. reflexivity.
  - exists ("input", "", "", "", "a"), " input [7:0] b, output reg busy);".
    exists " ", "", "", "", "", ",".
    unfold storage_class.
    repeat split; try reflexivity; try discriminate;
      first [left; reflexivity|right; reflexivity].
Defined.

(** ** What the module-name rule matches *)

Lemma eats_opt_lit (l c : string) : c = "" \/ c = l -> eats (Opt (Lit l)) c.
Proof.
  intros [->| ->]; [apply eats_opt_skip|apply eats_opt, eats_lit].
Qed.

Lemma module_header_read (s name tail : string) (p : option ascii) :
  (forall ch, p = Some ch -> in_cset ch behind = false) ->
  module_header s name tail ->
  exists p', reads moduleNamePattern p s p' tail.
Proof.
  intros Hp (w1 & pre & w2 & h & w3 & -> & Hn1 & H1 & Hpre & Hnn & Hna & H2
             & Hh & H3).
  assert (He : eats (Lit "module" >> Plus [Space] >> Opt (Lit "$[PREFIX]") >>
                     Group 1 (Plus ident) >> Star nl_space >> Opt (Lit "#") >>
                     Star nl_space >> Lit "(")
                    ("module" ++ w1 ++ pre ++ name ++ w2 ++ h ++ w3 ++ "(")).
  { apply eats_seq; [apply eats_lit|].
    apply eats_seq; [apply eats_plus; assumption|].
    apply eats_seq; [apply eats_opt_lit; exact Hpre|].
    apply eats_seq; [apply eats_group, eats_plus; assumption|].
    apply eats_seq; [apply eats_star; exact H2|].
    apply eats_seq; [apply eats_opt_lit; exact Hh|].
    apply eats_seq; [apply eats_star; exact H3|apply eats_lit]. }
  eexists. unfold moduleNamePattern.
  eapply reads_seq; [apply reads_not_behind; exact Hp|].
  specialize (He p tail). rewrite !sapp_assoc in He. exact He.
Qed.

(** X9: the module-name rule, told in full: a position of a text is an
    occurrence of the rule exactly when it lies in the text, does not follow
    a space, a slash, a letter or an underscore, and the text goes on from
    there with [module], white space, an optional [$[PREFIX]], a name of
    letters, digits and underscores, an optional [#] among optional white
    space, and an opening parenthesis. *)
Theorem module_rule_characterised (text : string) (pos : nat) :
  occurs moduleNamePattern text pos = true <->
  pos <= String.length text /\
  (forall c, char_before text pos = Some c -> in_cset c behind = false) /\
  exists name tail, module_header (drop pos text) name tail.
Proof.
  unfold occurs, match_at, match_here. split.
  - intros H. apply andb_prop in H. destruct H as [Hle Hm].
    apply Nat.leb_le in Hle. split; [exact Hle|].
    destruct (hd_error _) as [st'|] eqn:E; [|discriminate].
    apply hd_error_In in E. split.
    + pose proof E as E'. unfold moduleNamePattern in E'.
      next_part E' s0 H0. apply in_not_behind in H0.
      destruct H0 as [_ H0]. exact H0.
    + apply module_shape in E; [|reflexivity]. cbn [rest] in E. eauto.
  - intros (Hle & Hp & name & tail & Hd).
    apply Nat.leb_le in Hle. rewrite Hle. cbn [andb].
    destruct (module_header_read _ name tail (char_before text pos) Hp Hd)
      as (p' & Hr).
    destruct (Hr []) as (g' & Hin).
    destruct (run_re moduleNamePattern
                (MState (char_before text pos) (drop pos text) []));
      [contradiction|reflexivity].
Qed.

Lemma module_rule_characterised_witness :
  drop 20 two_modules = "module b (output y);" /\
  char_before two_modules 20 = Some "010"%char /\
  occurs moduleNamePattern two_modules 20 = true.
Proof.
  split; [reflexivity|]. split; [reflexivity|].
  apply (proj2 (module_rule_characterised two_modules 20)).
  split; [vm_compute; lia|]. split.
  - intros c [= <-]. reflexivity.
  - exists "b", "output y);". exists " ", "", " ", "", "".
    repeat split; try reflexivity; try discriminate;
      first [left; reflexivity|right; reflexivity].
Defined.
